(** * 3D bounding-box back-projection: [bbox3D_estimate_v2.py]

    A shallow embedding of the two functions of [bbox3D_estimate_v2.py],
    [dimensions_to_corners] and [solve_3d_bbox_single], and of the
    learning-rate decay of the training loop of [train_kitti.py], together
    with the properties stated about them.

    Tensor elements are kept abstract: the code is written once over a
    scalar type [F] with the arithmetic the source uses ([Scalar]) and the
    [torch] primitives it calls ([Torch]).  Tensors of a documented shape
    are length-indexed vectors, dictionaries are finite maps, and the
    Python exceptions the code can run into ([KeyError], [IndexError],
    an unbound local at [return trans], the [_LinAlgError] of
    [torch.pinverse]) are results of an error monad.  The real numbers give
    the instance in which the arithmetic statements of the specification
    are read; the binary64 numbers give the one in which NaN is followed
    through the code. *)

From Stdlib Require Import Reals Lra Epsilon.
From Corelib Require PrimFloat FloatOps FloatAxioms SpecFloat.
From stdpp Require Import base option list vector fin gmap strings.

Local Open Scope string_scope.

(** ** Scalars and the [torch] primitives *)

(** The arithmetic on tensor elements, with the literals of the source:
    [0.0], [1.0], [2.0], [0.5] and [np.pi]. *)
Class Scalar (F : Type) := {
  f_zero : F;
  f_one : F;
  f_two : F;
  f_half : F;
  f_pi : F;
  f_add : F → F → F;
  f_sub : F → F → F;
  f_mul : F → F → F;
  f_div : F → F → F;
  f_neg : F → F;
}.

Declare Scope scalar_scope.
Delimit Scope scalar_scope with sc.
Infix "+" := f_add : scalar_scope.
Infix "-" := f_sub : scalar_scope.
Infix "*" := f_mul : scalar_scope.
Infix "/" := f_div : scalar_scope.
Notation "- x" := (f_neg x) : scalar_scope.

(** A matrix of shape [n]x[m] is a vector of [n] rows. *)
Abbreviation mat F n m := (vec (vec F m) n).

(** The library functions the source calls and does not define.
    [f_lt] is [<] on two tensor elements; [f_lt_inf r] is the comparison
    [r < float('inf')] against the Python float the accumulator [error]
    starts from. *)
Class Torch (F : Type) := {
  atan2 : F → F → F;
  cos : F → F;
  sin : F → F;
  pinverse : ∀ {n m}, mat F n m → mat F m n;
  norm : ∀ {n}, vec F n → F;
  f_lt : F → F → bool;
  f_lt_inf : F → bool;
}.

(** ** Tensor operations *)

Section Tensor.
Context {F : Type} `{!Scalar F}.
Local Open Scope scalar_scope.

(** Sum of the element-wise products of two vectors. *)
Definition dot {n} (u v : vec F n) : F :=
  foldr f_add f_zero (vec_to_list (vzip_with f_mul u v)).

(** [M[i, j]]. *)
Definition entry {n m} (M : mat F n m) (i : fin n) (j : fin m) : F :=
  (M !!! i) !!! j.

(** Column [j] of a matrix. *)
Definition column {n m} (j : fin m) (M : mat F n m) : vec F n :=
  vmap (λ row, row !!! j) M.

(** [torch.matmul] on two matrices. *)
Definition matmul {n m p} (A : mat F n m) (B : mat F m p) : mat F n p :=
  vmap (λ row, fun_to_vec (λ j, dot row (column j B))) A.

(** [torch.matmul] on a matrix and a 1-D tensor. *)
Definition matvec {n m} (A : mat F n m) (v : vec F m) : vec F n :=
  vmap (λ row, dot row v) A.

(** [torch.eye(n)]. *)
Definition eye (n : nat) : mat F n n :=
  fun_to_vec (λ i, fun_to_vec (λ j, if decide (i = j) then f_one else f_zero)).

(** [M[:3, :3] = B] on a 4x4 matrix. *)
Definition set_block3 (M : mat F 4 4) (B : mat F 3 3) : mat F 4 4 :=
  let row (i : fin 3) (old : vec F 4) : vec F 4 :=
    [# entry B i 0%fin; entry B i 1%fin; entry B i 2%fin; old !!! 3%fin] in
  [# row 0%fin (M !!! 0%fin); row 1%fin (M !!! 1%fin);
     row 2%fin (M !!! 2%fin); M !!! 3%fin].

(** [M[:3, 3] = c] on a 4x4 matrix. *)
Definition set_col3 (M : mat F 4 4) (c : vec F 3) : mat F 4 4 :=
  [# vinsert 3%fin (c !!! 0%fin) (M !!! 0%fin);
     vinsert 3%fin (c !!! 1%fin) (M !!! 1%fin);
     vinsert 3%fin (c !!! 2%fin) (M !!! 2%fin);
     M !!! 3%fin].

(** [v[:3]] on a 1-D tensor of four elements. *)
Definition take3 (v : vec F 4) : vec F 3 :=
  [# v !!! 0%fin; v !!! 1%fin; v !!! 2%fin].

(** Element-wise difference and product by a scalar. *)
Definition vsub {n} (u v : vec F n) : vec F n := vzip_with f_sub u v.
Definition vscale {n} (a : F) (v : vec F n) : vec F n := vmap (f_mul a) v.
End Tensor.

(** ** [dimensions_to_corners] *)

Section Corners.
Context {F : Type} `{!Scalar F}.
Local Open Scope scalar_scope.

(** [l/2.0] and [-l/2.0] on a 1-D tensor; unary minus binds tighter
    than the division. *)
Definition halve {N} (v : vec F N) : vec F N := vmap (λ a, a / f_two) v.
Definition neg_halve {N} (v : vec F N) : vec F N := vmap (λ a, (- a) / f_two) v.
Definition negate {N} (v : vec F N) : vec F N := vmap f_neg v.

(** [corners.permute(2, 1, 0)] on a tensor of shape 3x8xN. *)
Definition permute210 {A B C} (T : vec (vec (vec F C) B) A) : vec (vec (vec F A) B) C :=
  fun_to_vec (λ n, fun_to_vec (λ j, fun_to_vec (λ c, ((T !!! c) !!! j) !!! n))).

Definition dimensions_to_corners {N} (dimensions : mat F N 3) : vec (mat F 8 3) N :=
  let h := column 0%fin dimensions in
  let w := column 1%fin dimensions in
  let l := column 2%fin dimensions in
  let zeros : vec F N := vreplicate N f_zero in
  let corner_x := [# halve l; neg_halve l; neg_halve l; halve l;
                     halve l; neg_halve l; neg_halve l; halve l] in
  let corner_y := [# zeros; zeros; zeros; zeros;
                     negate h; negate h; negate h; negate h] in
  let corner_z := [# halve w; halve w; neg_halve w; neg_halve w;
                     halve w; halve w; neg_halve w; neg_halve w] in
  let corners := [# corner_x; corner_y; corner_z] in
  permute210 corners.
End Corners.

(** ** Exceptions *)

(** The Python exceptions the code of [solve_3d_bbox_single] can run into
    on inputs of the documented shapes: a missing dictionary key, an index
    out of range, the local [trans] read before any assignment, and the
    [_LinAlgError] of [torch.pinverse]. *)
Inductive Exception := KeyError | IndexError | UnboundLocalError | LinAlgError.

Inductive Exc (A : Type) : Type :=
  | Ok (a : A)
  | Raise (e : Exception).
Arguments Ok {A} a.
Arguments Raise {A} e.

#[global] Instance exc_ret : MRet Exc := @Ok.
#[global] Instance exc_bind : MBind Exc := λ A B f m,
  match m with Ok a => f a | Raise e => Raise e end.

(** [d[k]] on a dictionary and [l[i]] on a sequence. *)
Definition getitem `{Countable K} {V} (d : gmap K V) (k : K) : Exc V :=
  match d !! k with Some v => Ok v | None => Raise KeyError end.

Definition index {A} (l : list A) (i : nat) : Exc A :=
  match l !! i with Some a => Ok a | None => Raise IndexError end.

(** [for x in xs: body], threading the local variables the body assigns. *)
Fixpoint for_each {X S} (xs : list X) (body : X → S → Exc S) (s : S) : Exc S :=
  match xs with
  | [] => Ok s
  | x :: xs => s' ← body x s; for_each xs body s'
  end.

(** ** [solve_3d_bbox_single] *)

(** The calibration dictionary, with the two entries the function reads. *)
Record Calib (F : Type) := {
  P2 : mat F 3 4;
  R0_rect : mat F 3 3;
}.
Arguments P2 {F} _.
Arguments R0_rect {F} _.

(** One entry [{'A': ..., 'b': ...}] of the dictionary [constrains]. *)
Record Constraint (F : Type) := {
  cA : vec F 3;
  cb : F;
}.
Arguments Build_Constraint {F} _ _.
Arguments cA {F} _.
Arguments cb {F} _.

(** [constrains]: edge kind, then corner index. *)
Abbreviation Constrains F := (gmap string (gmap nat (Constraint F))).

(** One entry of the table [crp]. *)
Abbreviation Hypothesis_ := (gmap string (list nat)).

(** The accumulator [error]: the Python float [inf] it starts from, or a
    residual computed by [torch.norm]. *)
Inductive Error (F : Type) :=
  | PyInf
  | Residual (r : F).
Arguments PyInf {F}.
Arguments Residual {F} r.

(** The local variables of the search loop.  [solved] is not a variable of
    the source: it records, in order, the argument pairs [(A, b)] with which
    [torch.pinverse] and the residual are computed. *)
Record Search (F : Type) := {
  buf_A : mat F 4 3;
  buf_b : vec F 4;
  trans : option (vec F 3);
  error : Error F;
  solved : list (mat F 4 3 * vec F 4);
}.
Arguments Build_Search {F} _ _ _ _ _.
Arguments buf_A {F} _.
Arguments buf_b {F} _.
Arguments trans {F} _.
Arguments error {F} _.
Arguments solved {F} _.

Section Solver.
Context {F : Type} `{!Scalar F, !Torch F}.
Local Open Scope scalar_scope.

(** [R0_rect = torch.eye(4); R0_rect[:3, :3] = calib['R0_rect']] *)
Definition R0_rect_homogeneous (calib : Calib F) : mat F 4 4 :=
  set_block3 (eye 4) (R0_rect calib).

(** [K = torch.matmul(P2, R0_rect)] *)
Definition projection (calib : Calib F) : mat F 3 4 :=
  matmul (P2 calib) (R0_rect_homogeneous calib).

(** [theta_ray = torch.atan2(P2[0, 0], (x1 + x2) * 0.5 - P2[0, 2])] *)
Definition ray_angle (bbox2D : vec F 4) (calib : Calib F) : F :=
  let x1 := bbox2D !!! 0%fin in
  let x2 := bbox2D !!! 2%fin in
  atan2 (entry (P2 calib) 0%fin 0%fin)
        ((x1 + x2) * f_half - entry (P2 calib) 0%fin 2%fin).

(** [ry = np.pi - theta_ray - theta_l] *)
Definition global_yaw (bbox2D : vec F 4) (theta_l : F) (calib : Calib F) : F :=
  f_pi - ray_angle bbox2D calib - theta_l.

Definition Ry_T (ry : F) : mat F 3 3 :=
  [# [# cos ry; f_zero; - sin ry];
     [# f_zero; f_one;  f_zero];
     [# sin ry; f_zero; cos ry]].

(** [constrains[e][i] = {'A': a, 'b': b}] *)
Definition set_constraint (e : string) (i : nat) (c : Constraint F)
    (constrains : Constrains F) : Exc (Constrains F) :=
  inner ← getitem constrains e;
  Ok (<[e := <[i := c]> inner]> constrains).

(** The constraint of an x-edge (projected-X row against the depth row)
    and of a y-edge (projected-Y row against the depth row). *)
Definition x_constraint (edge : F) (K_X : mat F 3 4) : Constraint F :=
  {| cA := vsub (take3 (K_X !!! 0%fin)) (vscale edge (take3 (K_X !!! 2%fin)));
     cb := edge * entry K_X 2%fin 3%fin - entry K_X 0%fin 3%fin |}.

Definition y_constraint (edge : F) (K_X : mat F 3 4) : Constraint F :=
  {| cA := vsub (take3 (K_X !!! 1%fin)) (vscale edge (take3 (K_X !!! 2%fin)));
     cb := edge * entry K_X 2%fin 3%fin - entry K_X 1%fin 3%fin |}.

(** Body of [for i in [4, 5, 6, 7]]; the state is [(X, constrains)]. *)
Definition bottom_body (K : mat F 3 4) (corners : mat F 8 3) (x1 x2 y1 : F)
    (i : nat) (st : mat F 4 4 * Constrains F) : Exc (mat F 4 4 * Constrains F) :=
  let '(X, constrains) := st in
  c ← index (vec_to_list corners) i;
  let X := set_col3 X c in
  let K_X := matmul K X in
  constrains ← set_constraint "x1" i (x_constraint x1 K_X) constrains;
  constrains ← set_constraint "x2" i (x_constraint x2 K_X) constrains;
  constrains ← set_constraint "y1" i (y_constraint y1 K_X) constrains;
  Ok (X, constrains).

(** Body of [for i in [0, 1, 2, 3]]. *)
Definition top_body (K : mat F 3 4) (corners : mat F 8 3) (y2 : F)
    (i : nat) (st : mat F 4 4 * Constrains F) : Exc (mat F 4 4 * Constrains F) :=
  let '(X, constrains) := st in
  c ← index (vec_to_list corners) i;
  let X := set_col3 X c in
  let K_X := matmul K X in
  constrains ← set_constraint "y2" i (y_constraint y2 K_X) constrains;
  Ok (X, constrains).

(** Lines 47 to 80: the dictionary [constrains] from the projection, the
    rotated corners and the 2D box. *)
Definition prepare_constrains (K : mat F 3 4) (corners : mat F 8 3)
    (bbox2D : vec F 4) : Exc (Constrains F) :=
  let x1 := bbox2D !!! 0%fin in
  let y1 := bbox2D !!! 1%fin in
  let x2 := bbox2D !!! 2%fin in
  let y2 := bbox2D !!! 3%fin in
  let X := eye 4 in
  let constrains : Constrains F := ∅ in
  let constrains := <["x1" := ∅]> constrains in
  let constrains := <["x2" := ∅]> constrains in
  let constrains := <["y1" := ∅]> constrains in
  let constrains := <["y2" := ∅]> constrains in
  st ← for_each [4; 5; 6; 7] (bottom_body K corners x1 x2 y1) (X, constrains);
  st ← for_each [0; 1; 2; 3] (top_body K corners y2) st;
  Ok (st.2).

Definition crp : list Hypothesis_ :=
  [ {[ "x1" := [6; 7]; "x2" := [4]; "y1" := [5; 7]; "y2" := [3] ]};
    {[ "x1" := [5; 6]; "x2" := [7]; "y1" := [4; 6]; "y2" := [2] ]};
    {[ "x1" := [4; 5]; "x2" := [6]; "y1" := [7; 5]; "y2" := [1] ]};
    {[ "x1" := [7; 4]; "x2" := [5]; "y1" := [6; 4]; "y2" := [0] ]} ].

(** [constrains[e][i]] *)
Definition constraint_of (constrains : Constrains F) (e : string) (i : nat)
    : Exc (Constraint F) :=
  inner ← getitem constrains e; getitem inner i.

(** [A[k] = constrains[e][i]['A']; b[k] = constrains[e][i]['b']] *)
Definition load_row (constrains : Constrains F) (e : string) (k : fin 4)
    (i : nat) (s : Search F) : Exc (Search F) :=
  c ← constraint_of constrains e i;
  Ok {| buf_A := vinsert k (cA c) (buf_A s);
        buf_b := vinsert k (cb c) (buf_b s);
        trans := trans s; error := error s; solved := solved s |}.

(** [error_t < error] *)
Definition improves (error_t : F) (error : Error F) : bool :=
  match error with
  | PyInf => f_lt_inf error_t
  | Residual r => f_lt error_t r
  end.

(** Lines 108 to 113: solve the system in the buffers and keep the
    solution when its residual is strictly below [error]. *)
Definition solve_system (s : Search F) : Search F :=
  let A := buf_A s in
  let b := buf_b s in
  let trans_t := matvec (pinverse A) b in
  let error_t := norm (vsub (matvec A trans_t) b) in
  let log := (solved s ++ [(A, b)])%list in
  if improves error_t (error s)
  then {| buf_A := A; buf_b := b; trans := Some trans_t;
          error := Residual error_t; solved := log |}
  else {| buf_A := A; buf_b := b; trans := trans s;
          error := error s; solved := log |}.

(** Lines 95 to 113: the four nested loops over the candidate corners
    of one entry [cr] of [crp]. *)
Definition correspondence_loops (constrains : Constrains F) (cr : Hypothesis_)
    (s : Search F) : Exc (Search F) :=
  xs1 ← getitem cr "x1";
  for_each xs1 (λ x_1 s,
    s ← load_row constrains "x1" 0%fin x_1 s;
    xs2 ← getitem cr "x2";
    for_each xs2 (λ x_2 s,
      s ← load_row constrains "x2" 1%fin x_2 s;
      ys1 ← getitem cr "y1";
      for_each ys1 (λ y_1 s,
        s ← load_row constrains "y1" 2%fin y_1 s;
        ys2 ← getitem cr "y2";
        for_each ys2 (λ y_2 s,
          s ← load_row constrains "y2" 3%fin y_2 s;
          Ok (solve_system s)) s) s) s) s.

(** Body of [for i in range(4)]. *)
Definition hypothesis_body (constrains : Constrains F) (i : nat)
    (s : Search F) : Exc (Search F) :=
  cr ← index crp i;
  correspondence_loops constrains cr s.

(** Lines 85 to 113, from given contents of the buffers [A] and [b];
    [error = float('inf')] and [trans] is not yet bound. *)
Definition search_from (A0 : mat F 4 3) (b0 : vec F 4)
    (constrains : Constrains F) : Exc (Search F) :=
  for_each (seq 0 4) (hypothesis_body constrains)
    {| buf_A := A0; buf_b := b0; trans := None; error := PyInf; solved := [] |}.

(** [return trans] *)
Definition return_trans (s : Search F) : Exc (vec F 3) :=
  match trans s with
  | Some t => Ok t
  | None => Raise UnboundLocalError
  end.

(** The rotated corners: [torch.matmul(corners, Ry_T)]. *)
Definition rotated_corners (bbox2D : vec F 4) (corners : mat F 8 3)
    (theta_l : F) (calib : Calib F) : mat F 8 3 :=
  matmul corners (Ry_T (global_yaw bbox2D theta_l calib)).

(** The function from given contents of the buffers [A] and [b], up to
    the state of the search loop when it reaches [return]. *)
Definition run_search_from (A0 : mat F 4 3) (b0 : vec F 4)
    (bbox2D : vec F 4) (corners : mat F 8 3)
    (theta_l : F) (calib : Calib F) : Exc (Search F) :=
  let K := projection calib in
  let corners := rotated_corners bbox2D corners theta_l calib in
  constrains ← prepare_constrains K corners bbox2D;
  search_from A0 b0 constrains.

Definition solve_from (A0 : mat F 4 3) (b0 : vec F 4)
    (bbox2D : vec F 4) (corners : mat F 8 3)
    (theta_l : F) (calib : Calib F) : Exc (vec F 3) :=
  s ← run_search_from A0 b0 bbox2D corners theta_l calib;
  return_trans s.

(** [A = torch.zeros(4, 3); b = torch.zeros(4)] *)
Definition zeros_A : mat F 4 3 := vreplicate 4 (vreplicate 3 f_zero).
Definition zeros_b : vec F 4 := vreplicate 4 f_zero.

Definition run_search := run_search_from zeros_A zeros_b.

Definition solve_3d_bbox_single (bbox2D : vec F 4) (corners : mat F 8 3)
    (theta_l : F) (calib : Calib F) : Exc (vec F 3) :=
  solve_from zeros_A zeros_b bbox2D corners theta_l calib.
End Solver.

(** ** The candidate systems, as the specification describes them *)

(** A 4-equation system [(A, b)] in the unknown translation. *)
Abbreviation System F := (prod (mat F 4 3) (vec F 4)).

(** What the search loop has found so far: [trans], [error] and the
    systems solved. *)
Abbreviation Outcome F := (prod (prod (option (vec F 3)) (Error F)) (list (System F))).

(** A correspondence: the corners assigned to the edges x1, x2, y1, y2. *)
Abbreviation Correspondence := (fin 8 * fin 8 * fin 8 * fin 8)%type.

(** The correspondences in the order of the four nested loops, one list
    per entry of [crp]. *)
Definition hypothesis_enumeration : list (list Correspondence) :=
  [ [ (6, 4, 5, 3); (6, 4, 7, 3); (7, 4, 5, 3); (7, 4, 7, 3) ];
    [ (5, 7, 4, 2); (5, 7, 6, 2); (6, 7, 4, 2); (6, 7, 6, 2) ];
    [ (4, 6, 7, 1); (4, 6, 5, 1); (5, 6, 7, 1); (5, 6, 5, 1) ];
    [ (7, 5, 6, 0); (7, 5, 4, 0); (4, 5, 6, 0); (4, 5, 4, 0) ] ]%fin.

Definition enumeration : list Correspondence := concat hypothesis_enumeration.

Section Candidates.
Context {F : Type} `{!Scalar F, !Torch F}.
Local Open Scope scalar_scope.

(** The homogeneous transform that translates by the corner [c]. *)
Definition homogeneous (c : vec F 3) : mat F 4 4 :=
  [# [# f_one;  f_zero; f_zero; c !!! 0%fin];
     [# f_zero; f_one;  f_zero; c !!! 1%fin];
     [# f_zero; f_zero; f_one;  c !!! 2%fin];
     [# f_zero; f_zero; f_zero; f_one] ].

(** The rectification rotation embedded into a 4x4 matrix. *)
Definition embed_rotation (R0 : mat F 3 3) : mat F 4 4 :=
  [# [# entry R0 0%fin 0%fin; entry R0 0%fin 1%fin; entry R0 0%fin 2%fin; f_zero];
     [# entry R0 1%fin 0%fin; entry R0 1%fin 1%fin; entry R0 1%fin 2%fin; f_zero];
     [# entry R0 2%fin 0%fin; entry R0 2%fin 1%fin; entry R0 2%fin 2%fin; f_zero];
     [# f_zero; f_zero; f_zero; f_one] ].

(** The dictionary the assembly loops are to build: the x1, x2 and y1
    constraints of the bottom corners and the y2 constraints of the top
    corners, each from the projection of its corner. *)
Definition expected_constrains (K : mat F 3 4) (corners : mat F 8 3)
    (bbox2D : vec F 4) : Constrains F :=
  let KX (i : fin 8) := matmul K (homogeneous (corners !!! i)) in
  let x1 := bbox2D !!! 0%fin in
  let y1 := bbox2D !!! 1%fin in
  let x2 := bbox2D !!! 2%fin in
  let y2 := bbox2D !!! 3%fin in
  {[ "x1" := {[ 4 := x_constraint x1 (KX 4%fin); 5 := x_constraint x1 (KX 5%fin);
                6 := x_constraint x1 (KX 6%fin); 7 := x_constraint x1 (KX 7%fin) ]};
     "x2" := {[ 4 := x_constraint x2 (KX 4%fin); 5 := x_constraint x2 (KX 5%fin);
                6 := x_constraint x2 (KX 6%fin); 7 := x_constraint x2 (KX 7%fin) ]};
     "y1" := {[ 4 := y_constraint y1 (KX 4%fin); 5 := y_constraint y1 (KX 5%fin);
                6 := y_constraint y1 (KX 6%fin); 7 := y_constraint y1 (KX 7%fin) ]};
     "y2" := {[ 0 := y_constraint y2 (KX 0%fin); 1 := y_constraint y2 (KX 1%fin);
                2 := y_constraint y2 (KX 2%fin); 3 := y_constraint y2 (KX 3%fin) ]} ]}.

(** The system of four constraints, one per edge. *)
Definition stack4 (c0 c1 c2 c3 : Constraint F) : System F :=
  ([# cA c0; cA c1; cA c2; cA c3], [# cb c0; cb c1; cb c2; cb c3]).

(** The system of a correspondence. *)
Definition candidate (K : mat F 3 4) (corners : mat F 8 3) (bbox2D : vec F 4)
    (q : Correspondence) : System F :=
  let KX (i : fin 8) := matmul K (homogeneous (corners !!! i)) in
  let '(i1, i2, j1, j2) := q in
  stack4 (x_constraint (bbox2D !!! 0%fin) (KX i1))
         (x_constraint (bbox2D !!! 2%fin) (KX i2))
         (y_constraint (bbox2D !!! 1%fin) (KX j1))
         (y_constraint (bbox2D !!! 3%fin) (KX j2)).

(** The candidate systems of one call, in enumeration order. *)
Definition candidates (bbox2D : vec F 4) (corners : mat F 8 3)
    (theta_l : F) (calib : Calib F) : list (System F) :=
  candidate (projection calib) (rotated_corners bbox2D corners theta_l calib) bbox2D
    <$> enumeration.

(** The least-squares solution [pinv(A) b] of a system and its residual
    [norm(A t - b)]. *)
Definition solution (sys : System F) : vec F 3 :=
  matvec (pinverse sys.1) sys.2.

Definition residual (sys : System F) : F :=
  norm (vsub (matvec sys.1 (solution sys)) sys.2).

(** One more system tried: it replaces the best so far when its residual
    is strictly below the best residual. *)
Definition consider (acc : Outcome F) (sys : System F) : Outcome F :=
  let '(t, e, l) := acc in
  if improves (residual sys) e
  then (Some (solution sys), Residual (residual sys), (l ++ [sys])%list)
  else (t, e, (l ++ [sys])%list).

Definition outcome (s : Search F) : Outcome F := (trans s, error s, solved s).

Definition with_buffers (A : mat F 4 3) (b : vec F 4) (acc : Outcome F) : Search F :=
  {| buf_A := A; buf_b := b; trans := acc.1.1; error := acc.1.2; solved := acc.2 |}.

(** The standard yaw rotation about the vertical axis. *)
Definition Ry (ry : F) : mat F 3 3 :=
  [# [# cos ry;     f_zero; sin ry];
     [# f_zero;     f_one;  f_zero];
     [# - sin ry;   f_zero; cos ry]].
End Candidates.

(** ** Specification-side notions *)

Section Notions.
Context {F : Type} `{!Scalar F, !Torch F}.
Local Open Scope scalar_scope.

(** The corners of one box, as the table of the documentation lists
    them: index 0 to 7, columns x, y, z. *)
Definition box_corners (h w l : F) : mat F 8 3 :=
  [# [#   l / f_two;    f_zero;   w / f_two];
     [# (- l) / f_two;  f_zero;   w / f_two];
     [# (- l) / f_two;  f_zero; (- w) / f_two];
     [#   l / f_two;    f_zero; (- w) / f_two];
     [#   l / f_two;    - h;      w / f_two];
     [# (- l) / f_two;  - h;      w / f_two];
     [# (- l) / f_two;  - h;    (- w) / f_two];
     [#   l / f_two;    - h;    (- w) / f_two] ].

(** [acc] is what the search holds after the systems [syss]: the
    solution and residual of the system at some position [k], which no
    system undercuts and which is strictly below every earlier one. *)
Definition selects (syss : list (System F)) (acc : Outcome F) : Prop :=
  ∃ k sys,
    syss !! k = Some sys ∧
    acc = (Some (solution sys), Residual (residual sys), syss) ∧
    (∀ j sys', syss !! j = Some sys' → f_lt (residual sys') (residual sys) = false) ∧
    (∀ j sys', (j < k)%nat → syss !! j = Some sys' →
               f_lt (residual sys) (residual sys') = true).
End Notions.

(** ** The real numbers as scalars *)

#[global] Instance real_scalar : Scalar R := {|
  f_zero := 0%R;
  f_one := 1%R;
  f_two := 2%R;
  f_half := 0.5%R;
  f_pi := PI;
  f_add := Rplus;
  f_sub := Rminus;
  f_mul := Rmult;
  f_div := Rdiv;
  f_neg := Ropp;
|}.

(** The angle of the point [(x, y)], in (-pi, pi]. *)
Definition Ratan2 (y x : R) : R :=
  if Rlt_dec 0 x then atan (y / x)
  else if Rlt_dec x 0 then
    (if Rle_dec 0 y then atan (y / x) + PI else atan (y / x) - PI)%R
  else if Rlt_dec 0 y then (PI / 2)%R
  else if Rlt_dec y 0 then (- PI / 2)%R
  else 0%R.

(** The Euclidean norm. *)
Definition Rnorm {n} (v : vec R n) : R := sqrt (dot v v).

(** The [torch] primitives on real tensors.  The pseudo-inverse routine is
    left open; every real number is below [float('inf')], which an infinite
    or NaN floating-point residual is not (see [float_torch]). *)
Definition real_torch (pinv : ∀ n m, mat R n m → mat R m n) : Torch R := {|
  atan2 := Ratan2;
  cos := Rtrigo_def.cos;
  sin := Rtrigo_def.sin;
  pinverse := pinv;
  norm := @Rnorm;
  f_lt := λ x y, if Rlt_dec x y then true else false;
  f_lt_inf := λ _, true;
|}.

(** ** Further notions *)

Section Geometry.
Context {F : Type} `{!Scalar F, !Torch F}.
Local Open Scope scalar_scope.

(** The coefficient matrix built from the projection and the 2D box alone:
    one row per edge x1, x2, y1, y2. *)
Definition edge_matrix (K : mat F 3 4) (bbox2D : vec F 4) : mat F 4 3 :=
  let K0 := take3 (K !!! 0%fin) in
  let K1 := take3 (K !!! 1%fin) in
  let K2 := take3 (K !!! 2%fin) in
  [# vsub K0 (vscale (bbox2D !!! 0%fin) K2);
     vsub K0 (vscale (bbox2D !!! 2%fin) K2);
     vsub K1 (vscale (bbox2D !!! 1%fin) K2);
     vsub K1 (vscale (bbox2D !!! 3%fin) K2)].

(** The corner [c] moved by the translation [t], in homogeneous
    coordinates. *)
Definition translated (c t : vec F 3) : vec F 4 :=
  [# c !!! 0%fin + t !!! 0%fin; c !!! 1%fin + t !!! 1%fin;
     c !!! 2%fin + t !!! 2%fin; f_one].

(** What the search holds after [syss] when [<] is only a strict partial
    order: nothing yet, every residual failing [r < inf]; or a system of
    [syss] that none of them undercuts. *)
Definition unbeaten (syss : list (System F)) (acc : Outcome F) : Prop :=
  (acc = (None, PyInf, syss) ∧
   Forall (λ sys, f_lt_inf (residual sys) = false) syss) ∨
  (∃ sys, sys ∈ syss ∧
     acc = (Some (solution sys), Residual (residual sys), syss) ∧
     f_lt_inf (residual sys) = true ∧
     ∀ sys', sys' ∈ syss → f_lt (residual sys') (residual sys) = false).
End Geometry.

(** The transpose of a matrix. *)
Definition transpose {F n m} (M : mat F n m) : mat F m n :=
  fun_to_vec (λ j, vmap (λ row, row !!! j) M).

(** The Moore-Penrose pseudo-inverse of a real matrix: the matrix [X] with
    [A X A = A], [X A X = X] and [A X], [X A] symmetric. *)
Definition is_pinverse {n m} (A : mat R n m) (X : mat R m n) : Prop :=
  matmul (matmul A X) A = A ∧
  matmul (matmul X A) X = X ∧
  transpose (matmul A X) = matmul A X ∧
  transpose (matmul X A) = matmul X A.

Definition Rpinverse (n m : nat) (A : mat R n m) : mat R m n :=
  epsilon (inhabits (vreplicate m (vreplicate n 0%R))) (is_pinverse A).

(** The real backend whose pseudo-inverse routine is the Moore-Penrose
    pseudo-inverse. *)
Definition real_backend : Torch R := real_torch Rpinverse.

(** ** Learning-rate decay in [train_kitti.py] *)

(** The variables the decay block of the training loop reads and writes:
    [training_cfg['lr_decay_epochs']], [training_cfg['lr_decay_rates']] and
    the ['lr'] entry of each of [optimizer.param_groups]. *)
Record Decay (F : Type) := {
  lr_decay_epochs : list nat;
  lr_decay_rates : list F;
  group_lrs : list F;
}.
Arguments Build_Decay {F} _ _ _.
Arguments lr_decay_epochs {F} _.
Arguments lr_decay_rates {F} _.
Arguments group_lrs {F} _.

(** [l.pop(0)]: the first element and the rest, or [IndexError] on an empty
    list. *)
Definition pop0 {A} (l : list A) : Exc (A * list A) :=
  match l with
  | [] => Raise IndexError
  | x :: l => Ok (x, l)
  end.

Section Decay.
Context {F : Type} `{!Scalar F}.
Local Open Scope scalar_scope.

(** Lines 220 to 224, at the end of the body of [for epoch in range(...)]. *)
Definition lr_decay (epoch : nat) (st : Decay F) : Exc (Decay F) :=
  if bool_decide (0 < length (lr_decay_epochs st))%nat
     && bool_decide (Some (epoch + 1)%nat = lr_decay_epochs st !! 0%nat)
  then
    '(_, epochs) ← pop0 (lr_decay_epochs st);
    '(lr_decay_rate, rates) ← pop0 (lr_decay_rates st);
    Ok {| lr_decay_epochs := epochs;
          lr_decay_rates := rates;
          group_lrs := (λ lr, lr * lr_decay_rate) <$> group_lrs st |}
  else Ok st.

(** The decay blocks of a whole run, [for epoch in range(total_epoch)]; the
    rest of the loop body leaves the three variables alone. *)
Definition lr_schedule (total_epoch : nat) (st : Decay F) : Exc (Decay F) :=
  for_each (seq 0 total_epoch) lr_decay st.

(** A learning rate after the decays by [rates], in order. *)
Definition decayed (rates : list F) (lr : F) : F :=
  foldl f_mul lr rates.
End Decay.

(** The milestones [ms] are strictly increasing and above [e]. *)
Fixpoint increasing_from (e : nat) (ms : list nat) : Prop :=
  match ms with
  | [] => True
  | m :: ms => (e < m)%nat ∧ increasing_from m ms
  end.

(** ** The failure of [torch.pinverse] *)

(** [torch.pinverse] computes a singular value decomposition and raises
    [_LinAlgError] when that fails, as it does on a matrix with an entry
    that is not finite.  [pinverse_raises A] tells whether the call on [A]
    raises; [pinverse A] is what it returns when it does not. *)
Class Linalg (F : Type) := {
  pinverse_raises : ∀ {n m}, mat F n m → bool;
}.

Section SolverRaising.
Context {F : Type} `{!Scalar F, !Torch F, !Linalg F}.

(** Lines 108 to 113, with the exception line 108 can raise. *)
Definition solve_system_raising (s : Search F) : Exc (Search F) :=
  if pinverse_raises (buf_A s) then Raise LinAlgError else Ok (solve_system s).

(** Lines 95 to 113. *)
Definition correspondence_loops_raising (constrains : Constrains F) (cr : Hypothesis_)
    (s : Search F) : Exc (Search F) :=
  xs1 ← getitem cr "x1";
  for_each xs1 (λ x_1 s,
    s ← load_row constrains "x1" 0%fin x_1 s;
    xs2 ← getitem cr "x2";
    for_each xs2 (λ x_2 s,
      s ← load_row constrains "x2" 1%fin x_2 s;
      ys1 ← getitem cr "y1";
      for_each ys1 (λ y_1 s,
        s ← load_row constrains "y1" 2%fin y_1 s;
        ys2 ← getitem cr "y2";
        for_each ys2 (λ y_2 s,
          s ← load_row constrains "y2" 3%fin y_2 s;
          solve_system_raising s) s) s) s) s.

(** Body of [for i in range(4)]. *)
Definition hypothesis_body_raising (constrains : Constrains F) (i : nat)
    (s : Search F) : Exc (Search F) :=
  cr ← index crp i;
  correspondence_loops_raising constrains cr s.

(** Lines 83 to 113. *)
Definition search_raising (constrains : Constrains F) : Exc (Search F) :=
  for_each (seq 0 4) (hypothesis_body_raising constrains)
    {| buf_A := zeros_A; buf_b := zeros_b; trans := None; error := PyInf; solved := [] |}.

(** The whole function, [torch.pinverse] raising where it does. *)
Definition solve_3d_bbox_single_raising (bbox2D : vec F 4) (corners : mat F 8 3)
    (theta_l : F) (calib : Calib F) : Exc (vec F 3) :=
  let K := projection calib in
  let corners := rotated_corners bbox2D corners theta_l calib in
  constrains ← prepare_constrains K corners bbox2D;
  s ← search_raising constrains;
  return_trans s.

(** The systems [syss] tried in order from [acc], up to the first on which
    [torch.pinverse] raises. *)
Fixpoint consider_each (acc : Outcome F) (syss : list (System F)) : Exc (Outcome F) :=
  match syss with
  | [] => Ok acc
  | sys :: syss =>
      if pinverse_raises sys.1 then Raise LinAlgError
      else consider_each (consider acc sys) syss
  end.

(** What a loop yields: the state with some contents of the buffers and the
    outcome [r], or the exception of [r]. *)
Definition yields (run : Exc (Search F)) (r : Exc (Outcome F)) : Prop :=
  match r with
  | Ok acc => ∃ A b, run = Ok (with_buffers A b acc)
  | Raise e => run = Raise e
  end.
End SolverRaising.

(** ** Floating-point numbers as scalars *)

Section Floats.
Import PrimFloat.

(** The binary64 numbers of IEEE 754, with their NaN and infinities.
    ([torch] computes in binary32 by default; NaN and the infinities behave
    alike in both.) *)
Definition float_scalar : Scalar float := {|
  f_zero := 0%float;
  f_one := 1%float;
  f_two := 2%float;
  f_half := 0.5%float;
  f_pi := 0x1.921fb54442d18p+1%float;
  f_add := PrimFloat.add;
  f_sub := PrimFloat.sub;
  f_mul := PrimFloat.mul;
  f_div := PrimFloat.div;
  f_neg := PrimFloat.opp;
|}.

(** The [torch] primitives on floating-point tensors, for given
    trigonometric and pseudo-inverse routines; the norm is the square root
    of the sum of squares, and [r < float('inf')] is false for an infinite
    [r] and for NaN. *)
Definition float_torch (atan2_ : float → float → float) (cos_ sin_ : float → float)
    (pinv : ∀ n m, mat float n m → mat float m n) : Torch float := {|
  atan2 := atan2_;
  cos := cos_;
  sin := sin_;
  pinverse := pinv;
  norm := λ n v, PrimFloat.sqrt (@dot float float_scalar n v v);
  f_lt := PrimFloat.ltb;
  f_lt_inf := λ r, PrimFloat.ltb r infinity;
|}.

Definition float_linalg (raises : ∀ n m, mat float n m → bool) : Linalg float := {|
  pinverse_raises := raises;
|}.

(** On the input, the function raises an exception whatever the
    trigonometric and pseudo-inverse routines compute, and whether or not
    [torch.pinverse] raises; where [torch.pinverse] never raises, the
    exception is the unbound local. *)
Definition raises_with_every_library (bbox2D : vec float 4) (corners : mat float 8 3)
    (theta_l : float) (calib : Calib float) : Prop :=
  ∀ atan2_ cos_ sin_ pinv raises,
    (∃ e, @solve_3d_bbox_single_raising float float_scalar
            (float_torch atan2_ cos_ sin_ pinv) (float_linalg raises)
            bbox2D corners theta_l calib = Raise e) ∧
    @solve_3d_bbox_single float float_scalar (float_torch atan2_ cos_ sin_ pinv)
      bbox2D corners theta_l calib = Raise UnboundLocalError.
End Floats.

(** Every real matrix has a pseudo-inverse. *)
Definition real_linalg : Linalg R := {| pinverse_raises := λ _ _ _, false |}.

(** * Properties *)

Section Assembly.
Context {F : Type} `{!Scalar F, !Torch F}.

Lemma prepare_constrains_expected (K : mat F 3 4) (corners : mat F 8 3) (bbox2D : vec F 4) :
  prepare_constrains K corners bbox2D = Ok (expected_constrains K corners bbox2D).
Proof. inv_vec corners. intros. vm_compute. reflexivity. Qed.

Lemma bind_ok {A B} (a : A) (f : A → Exc B) : Ok a ≫= f = f a.
Proof. reflexivity. Qed.

Lemma with_buffers_outcome (s : Search F) :
  s = with_buffers (buf_A s) (buf_b s) (outcome s).
Proof. by destruct s. Qed.

Lemma load_row_with_buffers (constrains : Constrains F) e k i (c : Constraint F)
    (A : mat F 4 3) (b : vec F 4) (acc : Outcome F) :
  constraint_of constrains e i = Ok c →
  load_row constrains e k i (with_buffers A b acc)
  = Ok (with_buffers (vinsert k (cA c) A) (vinsert k (cb c) b) acc).
Proof. intros H. unfold load_row. rewrite H. reflexivity. Qed.

Lemma solve_system_with_buffers (A : mat F 4 3) (b : vec F 4) (acc : Outcome F) :
  solve_system (with_buffers A b acc) = with_buffers A b (consider acc (A, b)).
Proof.
  destruct acc as [[t e] l]. unfold solve_system, consider, residual, solution.
  cbn [with_buffers buf_A buf_b trans error solved fst snd].
  by destruct (improves _ e).
Qed.

Lemma correspondence_loops_2121 (constrains : Constrains F) (cr : gmap string (list nat))
    (a a' b c c' d : nat) (ca ca' cb_ cc cc' cd : Constraint F)
    (A0 : mat F 4 3) (b0 : vec F 4) (acc : Outcome F) :
  getitem cr "x1" = Ok [a; a'] → getitem cr "x2" = Ok [b] →
  getitem cr "y1" = Ok [c; c'] → getitem cr "y2" = Ok [d] →
  constraint_of constrains "x1" a = Ok ca →
  constraint_of constrains "x1" a' = Ok ca' →
  constraint_of constrains "x2" b = Ok cb_ →
  constraint_of constrains "y1" c = Ok cc →
  constraint_of constrains "y1" c' = Ok cc' →
  constraint_of constrains "y2" d = Ok cd →
  ∃ A1 b1,
    correspondence_loops constrains cr (with_buffers A0 b0 acc)
    = Ok (with_buffers A1 b1
            (foldl consider acc
               [stack4 ca cb_ cc cd; stack4 ca cb_ cc' cd;
                stack4 ca' cb_ cc cd; stack4 ca' cb_ cc' cd])).
Proof.
  intros Hx1 Hx2 Hy1 Hy2 Ha Ha' Hb Hc Hc' Hd.
  inv_vec A0. inv_vec b0. intros.
  unfold correspondence_loops.
  rewrite Hx1. cbn [mbind exc_bind for_each].
  repeat first
    [ rewrite (load_row_with_buffers _ _ _ _ _ _ _ _ Ha)
    | rewrite (load_row_with_buffers _ _ _ _ _ _ _ _ Ha')
    | rewrite (load_row_with_buffers _ _ _ _ _ _ _ _ Hb)
    | rewrite (load_row_with_buffers _ _ _ _ _ _ _ _ Hc)
    | rewrite (load_row_with_buffers _ _ _ _ _ _ _ _ Hc')
    | rewrite (load_row_with_buffers _ _ _ _ _ _ _ _ Hd)
    | rewrite Hx2 | rewrite Hy1 | rewrite Hy2
    | rewrite solve_system_with_buffers
    | progress cbn [mbind exc_bind for_each vinsert vec_S_inv] ].
  eexists _, _. reflexivity.
Qed.

Lemma index_lookup {A} (l : list A) i a : l !! i = Some a → index l i = Ok a.
Proof. unfold index. by intros ->. Qed.

Lemma fin8_cases (P : fin 8 → Prop) :
  P 0%fin → P 1%fin → P 2%fin → P 3%fin → P 4%fin → P 5%fin → P 6%fin → P 7%fin →
  ∀ i, P i.
Proof.
  intros H0 H1 H2 H3 H4 H5 H6 H7 i.
  repeat (inv_fin i; [assumption|]; intros i).
  inv_fin i.
Qed.

Lemma expected_bottom (K : mat F 3 4) (corners : mat F 8 3) (bbox2D : vec F 4) (i : fin 8) :
  (4 ≤ i)%nat →
  constraint_of (expected_constrains K corners bbox2D) "x1" i
    = Ok (x_constraint (bbox2D !!! 0%fin) (matmul K (homogeneous (corners !!! i)))) ∧
  constraint_of (expected_constrains K corners bbox2D) "x2" i
    = Ok (x_constraint (bbox2D !!! 2%fin) (matmul K (homogeneous (corners !!! i)))) ∧
  constraint_of (expected_constrains K corners bbox2D) "y1" i
    = Ok (y_constraint (bbox2D !!! 1%fin) (matmul K (homogeneous (corners !!! i)))).
Proof.
  pattern i; apply fin8_cases; cbv beta; intros Hi; simpl in Hi; try lia; by split_and!.
Qed.

Lemma expected_top (K : mat F 3 4) (corners : mat F 8 3) (bbox2D : vec F 4) (i : fin 8) :
  (i < 4)%nat →
  constraint_of (expected_constrains K corners bbox2D) "y2" i
    = Ok (y_constraint (bbox2D !!! 3%fin) (matmul K (homogeneous (corners !!! i)))).
Proof.
  pattern i; apply fin8_cases; cbv beta; intros Hi; simpl in Hi; try lia; reflexivity.
Qed.

Lemma hypothesis_loops_candidates (K : mat F 3 4) (corners : mat F 8 3)
    (bbox2D : vec F 4) (cr : Hypothesis_) (i1 i1' i2 j1 j1' j2 : fin 8)
    (A0 : mat F 4 3) (b0 : vec F 4) (acc : Outcome F) :
  getitem cr "x1" = Ok [fin_to_nat i1; fin_to_nat i1'] →
  getitem cr "x2" = Ok [fin_to_nat i2] →
  getitem cr "y1" = Ok [fin_to_nat j1; fin_to_nat j1'] →
  getitem cr "y2" = Ok [fin_to_nat j2] →
  (4 ≤ i1)%nat → (4 ≤ i1')%nat → (4 ≤ i2)%nat → (4 ≤ j1)%nat → (4 ≤ j1')%nat →
  (j2 < 4)%nat →
  ∃ A1 b1,
    correspondence_loops (expected_constrains K corners bbox2D) cr (with_buffers A0 b0 acc)
    = Ok (with_buffers A1 b1
            (foldl consider acc
               (candidate K corners bbox2D <$>
                  [(i1, i2, j1, j2); (i1, i2, j1', j2);
                   (i1', i2, j1, j2); (i1', i2, j1', j2)]))).
Proof.
  intros Hx1 Hx2 Hy1 Hy2 H1 H1' H2 H3 H3' H4.
  destruct (expected_bottom K corners bbox2D i1 H1) as (E1 & _ & _).
  destruct (expected_bottom K corners bbox2D i1' H1') as (E1' & _ & _).
  destruct (expected_bottom K corners bbox2D i2 H2) as (_ & E2 & _).
  destruct (expected_bottom K corners bbox2D j1 H3) as (_ & _ & E3).
  destruct (expected_bottom K corners bbox2D j1' H3') as (_ & _ & E3').
  pose proof (expected_top K corners bbox2D j2 H4) as E4.
  apply (correspondence_loops_2121 _ cr _ _ _ _ _ _ _ _ _ _ _ _ A0 b0 acc
           Hx1 Hx2 Hy1 Hy2 E1 E1' E2 E3 E3' E4).
Qed.

Lemma hypothesis_body_candidates (K : mat F 3 4) (corners : mat F 8 3)
    (bbox2D : vec F 4) (i : nat) (A0 : mat F 4 3) (b0 : vec F 4) (acc : Outcome F) :
  (i < 4)%nat →
  ∃ A1 b1,
    hypothesis_body (expected_constrains K corners bbox2D) i (with_buffers A0 b0 acc)
    = Ok (with_buffers A1 b1
            (foldl consider acc
               (candidate K corners bbox2D <$> hypothesis_enumeration !!! i))).
Proof.
  intros Hi. unfold hypothesis_body.
  destruct i as [|[|[|[|i]]]]; [| | | |lia].
  - rewrite (index_lookup crp 0 _ eq_refl). cbn [mbind exc_bind].
    apply (hypothesis_loops_candidates K corners bbox2D _ 6 7 4 5 7 3);
      first [reflexivity | simpl; lia].
  - rewrite (index_lookup crp 1 _ eq_refl). cbn [mbind exc_bind].
    apply (hypothesis_loops_candidates K corners bbox2D _ 5 6 7 4 6 2);
      first [reflexivity | simpl; lia].
  - rewrite (index_lookup crp 2 _ eq_refl). cbn [mbind exc_bind].
    apply (hypothesis_loops_candidates K corners bbox2D _ 4 5 6 7 5 1);
      first [reflexivity | simpl; lia].
  - rewrite (index_lookup crp 3 _ eq_refl). cbn [mbind exc_bind].
    apply (hypothesis_loops_candidates K corners bbox2D _ 7 4 5 6 4 0);
      first [reflexivity | simpl; lia].
Qed.
End Assembly.


Section Search.
Context {F : Type} `{!Scalar F, !Torch F}.

Lemma for_each_app {X S} (xs ys : list X) (body : X → S → Exc S) (s : S) :
  for_each (xs ++ ys) body s = for_each xs body s ≫= for_each ys body.
Proof.
  revert s. induction xs as [|x xs IH]; intros s; simpl; [done|].
  destruct (body x s); simpl; [apply IH|done].
Qed.

Lemma search_loop_candidates (K : mat F 3 4) (corners : mat F 8 3)
    (bbox2D : vec F 4) (n : nat) (A0 : mat F 4 3) (b0 : vec F 4) (acc : Outcome F) :
  (n ≤ 4)%nat →
  ∃ A1 b1,
    for_each (seq 0 n) (hypothesis_body (expected_constrains K corners bbox2D))
      (with_buffers A0 b0 acc)
    = Ok (with_buffers A1 b1
            (foldl consider acc
               (candidate K corners bbox2D <$> concat (take n hypothesis_enumeration)))).
Proof.
  induction n as [|n IH]; intros Hn.
  - exists A0, b0. reflexivity.
  - destruct IH as (A1 & b1 & IH); [lia|].
    rewrite seq_S, for_each_app, IH. cbn [mbind exc_bind for_each Nat.add].
    destruct (hypothesis_body_candidates K corners bbox2D n A1 b1
      (foldl consider acc
         (candidate K corners bbox2D <$> concat (take n hypothesis_enumeration))))
      as (A2 & b2 & E); [lia|].
    rewrite E. cbn [mbind exc_bind]. exists A2, b2. do 2 f_equal.
    rewrite <- foldl_app, <- fmap_app. do 2 f_equal.
    destruct n as [|[|[|[|n]]]]; try reflexivity; lia.
Qed.

Lemma search_from_candidates (K : mat F 3 4) (corners : mat F 8 3)
    (bbox2D : vec F 4) (A0 : mat F 4 3) (b0 : vec F 4) :
  ∃ A1 b1,
    search_from A0 b0 (expected_constrains K corners bbox2D)
    = Ok (with_buffers A1 b1
            (foldl consider (None, PyInf, []) (candidate K corners bbox2D <$> enumeration))).
Proof.
  apply (search_loop_candidates K corners bbox2D 4 A0 b0 (None, PyInf, [])). lia.
Qed.

Lemma run_search_from_candidates (A0 : mat F 4 3) (b0 : vec F 4)
    (bbox2D : vec F 4) (corners : mat F 8 3) (theta_l : F) (calib : Calib F) :
  ∃ A1 b1,
    run_search_from A0 b0 bbox2D corners theta_l calib
    = Ok (with_buffers A1 b1
            (foldl consider (None, PyInf, []) (candidates bbox2D corners theta_l calib))).
Proof.
  unfold run_search_from, candidates.
  rewrite prepare_constrains_expected. cbn [mbind exc_bind].
  apply search_from_candidates.
Qed.

Lemma consider_solved (acc : Outcome F) (syss : list (System F)) :
  (foldl consider acc syss).2 = (acc.2 ++ syss)%list.
Proof.
  revert acc. induction syss as [|sys syss IH]; intros [[t e] l]; simpl.
  - by rewrite app_nil_r.
  - rewrite IH. unfold consider. destruct (improves _ e); simpl; by rewrite <- app_assoc.
Qed.
End Search.

Section Selection.
Context {F : Type} `{!Scalar F, !Torch F}.

Hypothesis lt_inf_all : ∀ r : F, f_lt_inf r = true.
Hypothesis lt_irrefl : ∀ r : F, f_lt r r = false.
Hypothesis lt_trans : ∀ a b c : F, f_lt a b = true → f_lt b c = true → f_lt a c = true.
Hypothesis lt_le_trans : ∀ a b c : F, f_lt a b = true → f_lt c b = false → f_lt a c = true.

Lemma selects_first (sys : System F) : selects [sys] (consider (None, PyInf, []) sys).
Proof.
  exists 0, sys. unfold consider. cbn [improves]. rewrite lt_inf_all.
  split_and!; [done|done| |intros; lia].
  intros [|j] sys' Hj; simplify_eq/=. apply lt_irrefl.
Qed.

Lemma selects_snoc (syss : list (System F)) (acc : Outcome F) (sys : System F) :
  selects syss acc → selects (syss ++ [sys]) (consider acc sys).
Proof.
  intros (k & best & Hk & -> & Hmin & Hfirst).
  unfold consider. cbn [improves].
  destruct (f_lt (residual sys) (residual best)) eqn:Hlt.
  - exists (length syss), sys. split_and!.
    + by rewrite lookup_app_r, Nat.sub_diag.
    + done.
    + intros j sys' Hj. apply lookup_app_Some in Hj as [Hj|[_ Hj]].
      * destruct (f_lt (residual sys') (residual sys)) eqn:E; [|done].
        rewrite <- (Hmin j sys' Hj). symmetry. by eapply lt_trans.
      * apply list_lookup_singleton_Some in Hj as [_ <-]. apply lt_irrefl.
    + intros j sys' Hj Hsys'. rewrite lookup_app_l in Hsys' by done.
      eapply lt_le_trans; [exact Hlt|]. by eapply Hmin.
  - exists k, best. split_and!.
    + by apply lookup_app_l_Some.
    + done.
    + intros j sys' Hj. apply lookup_app_Some in Hj as [Hj|[_ Hj]].
      * by eapply Hmin.
      * by apply list_lookup_singleton_Some in Hj as [_ <-].
    + intros j sys' Hj Hsys'. apply lookup_lt_Some in Hk.
      rewrite lookup_app_l in Hsys' by lia. by eapply Hfirst.
Qed.

Lemma selects_foldl (syss : list (System F)) :
  syss ≠ [] → selects syss (foldl consider (None, PyInf, []) syss).
Proof.
  induction syss as [|sys syss IH] using rev_ind; [done|]. intros _.
  rewrite foldl_app. cbn [foldl].
  destruct syss as [|sys0 syss]; [apply selects_first|].
  apply selects_snoc, IH. done.
Qed.
End Selection.

Section Claims.
Context {F : Type} `{!Scalar F, !Torch F}.
Local Open Scope scalar_scope.

Lemma projection_embed (calib : Calib F) :
  projection calib = matmul (P2 calib) (embed_rotation (R0_rect calib)).
Proof. reflexivity. Qed.

Lemma expected_absent (K : mat F 3 4) (corners : mat F 8 3) (bbox2D : vec F 4) (i : fin 8) :
  ((4 ≤ i)%nat →
     constraint_of (expected_constrains K corners bbox2D) "y2" i = Raise KeyError) ∧
  ((i < 4)%nat →
     constraint_of (expected_constrains K corners bbox2D) "x1" i = Raise KeyError ∧
     constraint_of (expected_constrains K corners bbox2D) "x2" i = Raise KeyError ∧
     constraint_of (expected_constrains K corners bbox2D) "y1" i = Raise KeyError).
Proof.
  pattern i; apply fin8_cases; cbv beta; (split; intros Hi; simpl in Hi; try lia);
    by split_and?.
Qed.

(** C2.  The assembly loops derive, for every corner index in
    {4,5,6,7}, one constraint for each of the edges x1, x2 and y1, and for
    every corner index in {0,1,2,3} a constraint for y2 only (any other
    lookup is a [KeyError]).  With [K = P2 . R0_rect] embedded into 4x4 and
    [K_X] the product of [K] with the homogeneous transform of the rotated
    corner, an x-edge constraint has [A = K_X[0,:3] - edge * K_X[2,:3]]
    and [b = edge * K_X[2,3] - K_X[0,3]]; a y-edge constraint has the
    same form with row 1 in place of row 0. *)
Theorem constraints_from_projection (bbox2D : vec F 4) (corners : mat F 8 3)
    (theta_l : F) (calib : Calib F) :
  let K := matmul (P2 calib) (embed_rotation (R0_rect calib)) in
  let rotated := rotated_corners bbox2D corners theta_l calib in
  let x1 := bbox2D !!! 0%fin in
  let y1 := bbox2D !!! 1%fin in
  let x2 := bbox2D !!! 2%fin in
  let y2 := bbox2D !!! 3%fin in
  ∃ constrains : Constrains F,
    prepare_constrains (projection calib) rotated bbox2D = Ok constrains ∧
    projection calib = K ∧
    ∀ i : fin 8,
      let K_X := matmul K (homogeneous (rotated !!! i)) in
      let x_edge (edge : F) :=
        {| cA := vsub (take3 (K_X !!! 0%fin)) (vscale edge (take3 (K_X !!! 2%fin)));
           cb := edge * entry K_X 2%fin 3%fin - entry K_X 0%fin 3%fin |} in
      let y_edge (edge : F) :=
        {| cA := vsub (take3 (K_X !!! 1%fin)) (vscale edge (take3 (K_X !!! 2%fin)));
           cb := edge * entry K_X 2%fin 3%fin - entry K_X 1%fin 3%fin |} in
      if decide (4 ≤ i)%nat then
        constraint_of constrains "x1" i = Ok (x_edge x1) ∧
        constraint_of constrains "x2" i = Ok (x_edge x2) ∧
        constraint_of constrains "y1" i = Ok (y_edge y1) ∧
        constraint_of constrains "y2" i = Raise KeyError
      else
        constraint_of constrains "y2" i = Ok (y_edge y2) ∧
        constraint_of constrains "x1" i = Raise KeyError ∧
        constraint_of constrains "x2" i = Raise KeyError ∧
        constraint_of constrains "y1" i = Raise KeyError.
Proof.
  intros K rotated x1 y1 x2 y2.
  exists (expected_constrains (projection calib) rotated bbox2D).
  split; [apply prepare_constrains_expected|]. split; [apply projection_embed|].
  intros i K_X x_edge y_edge.
  case_decide as Hi.
  - destruct (expected_bottom (projection calib) rotated bbox2D i Hi) as (E1 & E2 & E3).
    destruct (expected_absent (projection calib) rotated bbox2D i) as [E4 _].
    split_and!; [exact E1|exact E2|exact E3|apply E4, Hi].
  - assert (Hi' : (i < 4)%nat) by lia.
    destruct (expected_absent (projection calib) rotated bbox2D i) as [_ E].
    destruct (E Hi') as (E1 & E2 & E3).
    split_and!; [exact (expected_top _ _ _ i Hi')|exact E1|exact E2|exact E3].
Qed.

Lemma run_search_from_outcome (A0 : mat F 4 3) (b0 : vec F 4)
    (bbox2D : vec F 4) (corners : mat F 8 3) (theta_l : F) (calib : Calib F) :
  ∃ s, run_search_from A0 b0 bbox2D corners theta_l calib = Ok s ∧
       outcome s = foldl consider (None, PyInf, []) (candidates bbox2D corners theta_l calib).
Proof.
  destruct (run_search_from_candidates A0 b0 bbox2D corners theta_l calib)
    as (A1 & b1 & E).
  eexists. split; [exact E|]. by destruct (foldl _ _ _) as [[??]?].
Qed.

Lemma run_search_from_solved (A0 : mat F 4 3) (b0 : vec F 4)
    (bbox2D : vec F 4) (corners : mat F 8 3) (theta_l : F) (calib : Calib F) :
  ∃ s, run_search_from A0 b0 bbox2D corners theta_l calib = Ok s ∧
       solved s = candidates bbox2D corners theta_l calib.
Proof.
  destruct (run_search_from_outcome A0 b0 bbox2D corners theta_l calib) as (s & E & Ho).
  exists s. split; [done|].
  change (solved s) with (outcome s).2. by rewrite Ho, consider_solved.
Qed.

(** C4.  The table [crp] has exactly 4 hypotheses, each with 2 candidate
    corners for x1, 1 for x2, 2 for y1 and 1 for y2; the body of the
    outer loop solves exactly 4 systems for each hypothesis, and one call
    solves exactly 16 systems. *)
Theorem search_enumerates_sixteen (bbox2D : vec F 4) (corners : mat F 8 3)
    (theta_l : F) (calib : Calib F) :
  length crp = 4 ∧
  Forall (λ cr : Hypothesis_, ∃ xs1 xs2 ys1 ys2,
            cr !! "x1" = Some xs1 ∧ cr !! "x2" = Some xs2 ∧
            cr !! "y1" = Some ys1 ∧ cr !! "y2" = Some ys2 ∧
            length xs1 = 2 ∧ length xs2 = 1 ∧ length ys1 = 2 ∧ length ys2 = 1) crp ∧
  (∃ constrains,
      prepare_constrains (projection calib)
        (rotated_corners bbox2D corners theta_l calib) bbox2D = Ok constrains ∧
      ∀ (i : nat) (s : Search F), (i < 4)%nat →
        ∃ s', hypothesis_body constrains i s = Ok s' ∧
              length (solved s') = (length (solved s) + 4)%nat) ∧
  ∃ s, run_search bbox2D corners theta_l calib = Ok s ∧ length (solved s) = 16.
Proof.
  split; [reflexivity|]. split.
  { repeat constructor; by eexists _, _, _, _. }
  split.
  - eexists. split; [apply prepare_constrains_expected|].
    intros i s Hi. rewrite (with_buffers_outcome s).
    edestruct hypothesis_body_candidates as (A1 & b1 & ->); [exact Hi|].
    eexists. split; [done|].
    change (solved (with_buffers ?A ?b ?acc)) with (acc.2).
    rewrite consider_solved, length_app, length_fmap. f_equal.
    destruct i as [|[|[|[|i]]]]; try reflexivity; lia.
  - destruct (run_search_from_solved zeros_A zeros_b bbox2D corners theta_l calib)
      as (s & E & Hs).
    exists s. split; [exact E|]. rewrite Hs. reflexivity.
Qed.

End Claims.

Section Batch.
Context {F : Type} `{!Scalar F, !Torch F}.
Local Open Scope scalar_scope.

Lemma dimensions_to_corners_lookup {N} (dimensions : mat F N 3) (i : fin N) :
  dimensions_to_corners dimensions !!! i
  = box_corners (entry dimensions i 0%fin) (entry dimensions i 1%fin)
                (entry dimensions i 2%fin).
Proof.
  unfold dimensions_to_corners, permute210.
  rewrite lookup_fun_to_vec. unfold halve, neg_halve, negate, column. simpl.
  rewrite !vlookup_map, !vlookup_replicate. reflexivity.
Qed.

(** C8.  A batch of N dimension triples gives a tensor of shape Nx8x3
    whose slice [i] is the result of the call on the batch of the triple
    [i] alone: the batched output is the stack of N single calls. *)
Theorem corners_batch {N} (dimensions : mat F N 3) :
  length (vec_to_list (dimensions_to_corners dimensions)) = N ∧
  (∀ i : fin N,
     length (vec_to_list (dimensions_to_corners dimensions !!! i)) = 8 ∧
     ∀ j : fin 8,
       length (vec_to_list ((dimensions_to_corners dimensions !!! i) !!! j)) = 3) ∧
  (∀ i : fin N,
     dimensions_to_corners dimensions !!! i
     = dimensions_to_corners [# dimensions !!! i] !!! 0%fin) ∧
  dimensions_to_corners dimensions
  = vmap (λ d, dimensions_to_corners [# d] !!! 0%fin) dimensions.
Proof.
  assert (Hslice : ∀ i : fin N,
     dimensions_to_corners dimensions !!! i
     = dimensions_to_corners [# dimensions !!! i] !!! 0%fin).
  { intros i. rewrite !dimensions_to_corners_lookup. reflexivity. }
  split_and!.
  - apply length_vec_to_list.
  - intros i. split; [|intros j]; apply length_vec_to_list.
  - exact Hslice.
  - apply vec_eq. intros i. by rewrite vlookup_map.
Qed.
End Batch.

Section Reals.
Context (pinv : ∀ n m, mat R n m → mat R m n).
Let backend : Torch R := real_torch pinv.
#[local] Existing Instance backend.

Lemma real_lt_true (x y : R) : f_lt x y = true ↔ (x < y)%R.
Proof. cbn. destruct (Rlt_dec x y); split; (done || lra). Qed.

Lemma real_lt_false (x y : R) : f_lt x y = false ↔ (y <= x)%R.
Proof. cbn. destruct (Rlt_dec x y); split; (done || lra). Qed.

Lemma real_selects (syss : list (System R)) :
  syss ≠ [] → selects syss (foldl consider (None, PyInf, []) syss).
Proof.
  apply selects_foldl.
  - done.
  - intros r. apply real_lt_false. lra.
  - intros a b c ?%real_lt_true ?%real_lt_true. apply real_lt_true. lra.
  - intros a b c ?%real_lt_true ?%real_lt_false. apply real_lt_true. lra.
Qed.

Lemma candidates_nonempty (bbox2D : vec R 4) (corners : mat R 8 3)
    (theta_l : R) (calib : Calib R) :
  candidates bbox2D corners theta_l calib ≠ [].
Proof. done. Qed.

Lemma real_search (bbox2D : vec R 4) (corners : mat R 8 3) (theta_l : R) (calib : Calib R) :
  ∃ s k sys,
    run_search bbox2D corners theta_l calib = Ok s ∧
    solved s = candidates bbox2D corners theta_l calib ∧
    solved s !! k = Some sys ∧
    solve_3d_bbox_single bbox2D corners theta_l calib = Ok (solution sys) ∧
    (∀ j sys', solved s !! j = Some sys' → (residual sys <= residual sys')%R) ∧
    (∀ j sys', (j < k)%nat → solved s !! j = Some sys' → (residual sys < residual sys')%R).
Proof.
  destruct (run_search_from_outcome zeros_A zeros_b bbox2D corners theta_l calib)
    as (s & E & Ho).
  destruct (real_selects _ (candidates_nonempty bbox2D corners theta_l calib))
    as (k & sys & Hk & Hacc & Hmin & Hfirst).
  rewrite Hacc in Ho. destruct s as [A b t e l]. injection Ho as -> -> ->.
  exists {| buf_A := A; buf_b := b; trans := Some (solution sys);
            error := Residual (residual sys);
            solved := candidates bbox2D corners theta_l calib |}, k, sys.
  split_and!; [exact E|done|exact Hk| | |].
  - unfold solve_3d_bbox_single, solve_from. rewrite E. reflexivity.
  - intros j sys' Hj. apply real_lt_false. by eapply Hmin.
  - intros j sys' Hlt Hj. apply real_lt_true. by eapply Hfirst.
Qed.



(** C3.  Over the reals, the ray angle is
    [atan2(P2[0,0], (x1 + x2) / 2 - P2[0,2])], the global yaw is
    [pi - theta_ray - theta_l], and the corners are rotated with that
    yaw. *)
Theorem yaw_from_ray_angle (bbox2D : vec R 4) (corners : mat R 8 3)
    (theta_l : R) (calib : Calib R) :
  let x1 := bbox2D !!! 0%fin in
  let x2 := bbox2D !!! 2%fin in
  let fx := entry (P2 calib) 0%fin 0%fin in
  let cx := entry (P2 calib) 0%fin 2%fin in
  let theta_ray := Ratan2 fx ((x1 + x2) / 2 - cx) in
  let ry := (PI - theta_ray - theta_l)%R in
  ray_angle bbox2D calib = theta_ray ∧
  global_yaw bbox2D theta_l calib = ry ∧
  rotated_corners bbox2D corners theta_l calib = matmul corners (Ry_T ry).
Proof.
  intros x1 x2 fx cx theta_ray ry.
  assert (Hray : ray_angle bbox2D calib = theta_ray).
  { unfold ray_angle, theta_ray. cbn. f_equal. subst x1 x2 cx. cbn. lra. }
  assert (Hry : global_yaw bbox2D theta_l calib = ry).
  { unfold global_yaw. rewrite Hray. reflexivity. }
  split_and!; [exact Hray|exact Hry|].
  unfold rotated_corners. by rewrite Hry.
Qed.

(** C7.  Over the reals, every one of the 8 corners is rotated by the
    yaw rotation about the y axis before the constraints are assembled:
    row [i] of [corners . Ry_T] is [Ry(ry)] applied to corner [i], where
    [Ry] is the transpose of [Ry_T], and the constraints are prepared
    from the rotated corners. *)
Theorem corners_rotated_by_yaw (bbox2D : vec R 4) (corners : mat R 8 3)
    (theta_l : R) (calib : Calib R) :
  let ry := global_yaw bbox2D theta_l calib in
  (∀ i : fin 8,
     rotated_corners bbox2D corners theta_l calib !!! i
     = matvec (Ry ry) (corners !!! i)) ∧
  (∀ i j : fin 3, entry (Ry ry) i j = entry (Ry_T ry) j i) ∧
  run_search bbox2D corners theta_l calib
  = prepare_constrains (projection calib)
      (rotated_corners bbox2D corners theta_l calib) bbox2D
    ≫= search_from zeros_A zeros_b.
Proof.
  intros ry. split_and!.
  - intros i. unfold rotated_corners, matmul. rewrite vlookup_map. fold ry.
    generalize (corners !!! i). intros c. inv_vec c. intros x y z.
    cbn. f_equal; [|f_equal; [|f_equal]]; ring.
  - intros i j. repeat (inv_fin i; [|intros i]); repeat (inv_fin j; [|intros j]);
      try reflexivity; try inv_fin i; try inv_fin j.
  - reflexivity.
Qed.

(** C5.  For positive dimensions, the 8 corners of a box come in the
    fixed order of the table: y is 0 for the corners 0 to 3 and [-h] for
    the corners 4 to 7, x is [l/2] or [-l/2] with signs + - - + + - - +,
    z is [w/2] or [-w/2] with signs + + - - + + - -, hence [|x| = l/2]
    and [|z| = w/2] for every corner. *)
Theorem corner_table {N} (dimensions : mat R N 3) (i : fin N) :
  let h := entry dimensions i 0%fin in
  let w := entry dimensions i 1%fin in
  let l := entry dimensions i 2%fin in
  let box := dimensions_to_corners dimensions !!! i in
  (0 < h)%R → (0 < w)%R → (0 < l)%R →
  column 0%fin box = [# l/2; -(l/2); -(l/2); l/2; l/2; -(l/2); -(l/2); l/2]%R ∧
  column 1%fin box = [# 0; 0; 0; 0; -h; -h; -h; -h]%R ∧
  column 2%fin box = [# w/2; w/2; -(w/2); -(w/2); w/2; w/2; -(w/2); -(w/2)]%R ∧
  (0 < l/2)%R ∧ (0 < w/2)%R ∧
  ∀ j : fin 8, Rabs (entry box j 0%fin) = (l/2)%R ∧ Rabs (entry box j 2%fin) = (w/2)%R.
Proof.
  intros h w l box Hh Hw Hl. subst box.
  rewrite dimensions_to_corners_lookup. fold h w l.
  split_and!; try (cbn; repeat f_equal; lra); try lra.
  intros j. pattern j. apply fin8_cases; cbn;
    (split; [rewrite ?Rabs_right by lra|rewrite ?Rabs_right by lra]);
    try lra; rewrite Rabs_left by lra; lra.
Qed.

Lemma corner_table_witness :
  let dimensions : mat R 1 3 := [# [# 2; 2; 2]%R] in
  let box := dimensions_to_corners dimensions !!! 0%fin in
  column 0%fin box = [# 2/2; -(2/2); -(2/2); 2/2; 2/2; -(2/2); -(2/2); 2/2]%R ∧
  column 1%fin box = [# 0; 0; 0; 0; -2; -2; -2; -2]%R ∧
  column 2%fin box = [# 2/2; 2/2; -(2/2); -(2/2); 2/2; 2/2; -(2/2); -(2/2)]%R ∧
  (0 < 2/2)%R ∧ (0 < 2/2)%R ∧
  ∀ j : fin 8, Rabs (entry box j 0%fin) = (2/2)%R ∧ Rabs (entry box j 2%fin) = (2/2)%R.
Proof.
  apply (corner_table [# [# 2; 2; 2]%R] 0%fin); cbn; lra.
Defined.
End Reals.

(** * Further properties *)

Section Failure.
Context {F : Type} `{!Scalar F, !Torch F}.

Lemma consider_bound (t : vec F 3) (e : Error F) (l syss : list (System F)) :
  is_Some (foldl consider (Some t, e, l) syss).1.1.
Proof.
  revert t e l. induction syss as [|sys syss IH]; intros t e l; cbn [foldl].
  - by eexists.
  - unfold consider at 2. destruct (improves _ e); apply IH.
Qed.

Lemma consider_unbound (l syss : list (System F)) :
  (foldl consider (None, PyInf, l) syss).1.1 = None
  ↔ Forall (λ sys, f_lt_inf (residual sys) = false) syss.
Proof.
  revert l. induction syss as [|sys syss IH]; intros l; cbn [foldl].
  - split; [constructor|done].
  - unfold consider at 2. cbn [improves].
    destruct (f_lt_inf (residual sys)) eqn:E.
    + split.
      * intros H. destruct (consider_bound (solution sys) (Residual (residual sys))
                              (l ++ [sys]) syss) as [t Ht]. congruence.
      * intros H. apply Forall_cons in H as [H _]. congruence.
    + rewrite IH. split; [by constructor|]. by intros [_ H]%Forall_cons.
Qed.

End Failure.

Section Dom.
Context {F : Type} `{!Scalar F, !Torch F}.
Local Open Scope nat_scope.

Lemma constraint_of_Ok (constrains : Constrains F) (e : string) (i : nat) (c : Constraint F) :
  constraint_of constrains e i = Ok c
  ↔ ∃ inner, constrains !! e = Some inner ∧ inner !! i = Some c.
Proof.
  unfold constraint_of, getitem. destruct (constrains !! e) as [inner|]; cbn.
  - destruct (inner !! i) eqn:E; split.
    + intros [= ->]. eauto.
    + intros (? & [= <-] & H). congruence.
    + done.
    + intros (? & [= <-] & H). congruence.
  - split; [done|]. by intros (? & ? & _).
Qed.

Lemma four_keys_Some {V} (a b c d v : V) (k i : nat) :
  ({[ k := a; S k := b; S (S k) := c; S (S (S k)) := d ]} : gmap nat V) !! i = Some v
  → k ≤ i < k + 4.
Proof.
  rewrite !lookup_insert_Some, lookup_singleton_Some. lia.
Qed.

Lemma expected_domain (K : mat F 3 4) (corners : mat F 8 3) (bbox2D : vec F 4)
    (e : string) (i : nat) :
  (∃ c, constraint_of (expected_constrains K corners bbox2D) e i = Ok c)
  ↔ (e ∈ ["x1"; "x2"; "y1"] ∧ 4 ≤ i < 8) ∨ (e = "y2" ∧ i < 4).
Proof.
  split.
  - intros [c (inner & He & Hi)%constraint_of_Ok].
    unfold expected_constrains in He.
    rewrite !lookup_insert_Some, lookup_singleton_Some in He.
    destruct He as [[<- <-]|[_ [[<- <-]|[_ [[<- <-]|[_ [<- <-]]]]]]];
      apply four_keys_Some in Hi.
    + left. split; [rewrite !elem_of_cons; auto|lia].
    + left. split; [rewrite !elem_of_cons; auto|lia].
    + left. split; [rewrite !elem_of_cons; auto|lia].
    + right. split; [done|lia].
  - intros [[He Hi]|[-> Hi]].
    + assert (i = 4 ∨ i = 5 ∨ i = 6 ∨ i = 7) as Hc by lia.
      apply list_elem_of_In in He. cbn in He.
      destruct He as [<-|[<-|[<-|[]]]]; destruct Hc as [->|[->|[->| ->]]];
        eexists; reflexivity.
    + assert (i = 0 ∨ i = 1 ∨ i = 2 ∨ i = 3) as Hc by lia.
      destruct Hc as [->|[->|[->| ->]]]; eexists; reflexivity.
Qed.

(** X3.  The dictionary [constrains] built by the assembly loops holds
    exactly 16 constraints: [constrains[e][i]] exists if and only if [e] is
    x1, x2 or y1 and [i] is one of 4, 5, 6, 7, or [e] is y2 and [i] is one
    of 0, 1, 2, 3. *)
Theorem constrains_has_sixteen_entries (bbox2D : vec F 4) (corners : mat F 8 3)
    (theta_l : F) (calib : Calib F) :
  ∃ constrains : Constrains F,
    prepare_constrains (projection calib)
      (rotated_corners bbox2D corners theta_l calib) bbox2D = Ok constrains ∧
    ∀ (e : string) (i : nat),
      (∃ c, constraint_of constrains e i = Ok c)
      ↔ (e ∈ ["x1"; "x2"; "y1"] ∧ 4 ≤ i < 8) ∨ (e = "y2" ∧ i < 4).
Proof.
  eexists. split; [apply prepare_constrains_expected|]. apply expected_domain.
Qed.
End Dom.

Section RealGeometry.
Context (pinv : ∀ n m, mat R n m → mat R m n).
Let backend : Torch R := real_torch pinv.
#[local] Existing Instance backend.

Lemma vec3_ext {A} (a b c a' b' c' : A) :
  a = a' → b = b' → c = c' → [# a; b; c] = [# a'; b'; c'].
Proof. by intros -> -> ->. Qed.

Lemma projection_rows_keep (K : mat R 3 4) (c : vec R 3) (r : fin 3) :
  take3 (matmul K (homogeneous c) !!! r) = take3 (K !!! r).
Proof.
  unfold matmul. rewrite vlookup_map. generalize (K !!! r). intros row.
  inv_vec row. intros k0 k1 k2 k3. cbn. unfold take3. cbn. apply vec3_ext; ring.
Qed.

Lemma x_constraint_row (K : mat R 3 4) (c : vec R 3) (edge : R) :
  cA (x_constraint edge (matmul K (homogeneous c)))
  = vsub (take3 (K !!! 0%fin)) (vscale edge (take3 (K !!! 2%fin))).
Proof. unfold x_constraint. cbn [cA]. by rewrite !projection_rows_keep. Qed.

Lemma y_constraint_row (K : mat R 3 4) (c : vec R 3) (edge : R) :
  cA (y_constraint edge (matmul K (homogeneous c)))
  = vsub (take3 (K !!! 1%fin)) (vscale edge (take3 (K !!! 2%fin))).
Proof. unfold y_constraint. cbn [cA]. by rewrite !projection_rows_keep. Qed.

Lemma candidate_matrix (K : mat R 3 4) (corners : mat R 8 3) (bbox2D : vec R 4)
    (q : Correspondence) :
  (candidate K corners bbox2D q).1 = edge_matrix K bbox2D.
Proof.
  destruct q as [[[i1 i2] j1] j2]. unfold candidate, stack4, edge_matrix.
  cbn [fst]. by rewrite !x_constraint_row, !y_constraint_row.
Qed.

(** X4.  Over the reals, every system the search solves has the same
    coefficient matrix [A], with the rows [K[0,:3] - x1 K[2,:3]],
    [K[0,:3] - x2 K[2,:3]], [K[1,:3] - y1 K[2,:3]], [K[1,:3] - y2 K[2,:3]]:
    it depends on the calibration and the 2D box alone, not on the corners
    or the angle; the 16 systems differ in [b] only. *)
Theorem systems_share_matrix (bbox2D : vec R 4) (corners : mat R 8 3)
    (theta_l : R) (calib : Calib R) :
  ∃ s, run_search bbox2D corners theta_l calib = Ok s ∧
       ∀ A b, (A, b) ∈ solved s → A = edge_matrix (projection calib) bbox2D.
Proof.
  destruct (run_search_from_solved zeros_A zeros_b bbox2D corners theta_l calib)
    as (s & E & Hs).
  exists s. split; [exact E|]. intros A b Hin. rewrite Hs in Hin.
  unfold candidates in Hin. apply list_elem_of_fmap in Hin as (q & Hq & _).
  change A with (A, b).1. rewrite Hq. apply candidate_matrix.
Qed.

(** X5.  Over the reals, the constraint of an x-edge built from the
    corner [c] holds for a translation [t] if and only if the corner moved
    by [t] projects through [K] to a point whose first homogeneous
    coordinate is [edge] times its depth; for a y-edge, the same with the
    second coordinate. *)
Theorem constraint_means_projection (K : mat R 3 4) (c t : vec R 3) (edge : R) :
  let image := matvec K (translated c t) in
  (dot (cA (x_constraint edge (matmul K (homogeneous c)))) t
     = cb (x_constraint edge (matmul K (homogeneous c)))
   ↔ image !!! 0%fin = (edge * image !!! 2%fin)%R) ∧
  (dot (cA (y_constraint edge (matmul K (homogeneous c)))) t
     = cb (y_constraint edge (matmul K (homogeneous c)))
   ↔ image !!! 1%fin = (edge * image !!! 2%fin)%R).
Proof.
  inv_vec K. intros r0 r1 r2. inv_vec r0. inv_vec r1. inv_vec r2.
  intros k20 k21 k22 k23 k10 k11 k12 k13 k00 k01 k02 k03.
  inv_vec c. intros c0 c1 c2. inv_vec t. intros t0 t1 t2.
  cbn. split; split; intros H; lra.
Qed.

Lemma rotated_corner_lookup (bbox2D : vec R 4) (corners : mat R 8 3)
    (theta_l : R) (calib : Calib R) (i : fin 8) :
  rotated_corners bbox2D corners theta_l calib !!! i
  = matvec (Ry (global_yaw bbox2D theta_l calib)) (corners !!! i).
Proof.
  unfold rotated_corners, matmul. rewrite vlookup_map.
  generalize (global_yaw bbox2D theta_l calib) (corners !!! i). intros ry c.
  inv_vec c. intros x y z. cbn. apply vec3_ext; ring.
Qed.

(** X6.  Over the reals, the rotation applied to the corners keeps the y
    coordinate of every corner and its distance [x^2 + z^2] to the vertical
    axis. *)
Theorem rotation_keeps_height_and_radius (bbox2D : vec R 4) (corners : mat R 8 3)
    (theta_l : R) (calib : Calib R) (i : fin 8) :
  let c := corners !!! i in
  let c' := rotated_corners bbox2D corners theta_l calib !!! i in
  c' !!! 1%fin = c !!! 1%fin ∧
  ((c' !!! 0%fin)² + (c' !!! 2%fin)² = (c !!! 0%fin)² + (c !!! 2%fin)²)%R.
Proof.
  intros c c'. subst c'. rewrite rotated_corner_lookup. fold c. generalize (global_yaw bbox2D theta_l calib). intros ry.
  inv_vec c. intros x y z. cbn. split; [ring|].
  unfold Rsqr.
  pose proof (sin2_cos2 ry) as H. unfold Rsqr in H.
  transitivity ((x * x + z * z) * (Rtrigo_def.sin ry * Rtrigo_def.sin ry
                                   + Rtrigo_def.cos ry * Rtrigo_def.cos ry))%R; [ring|].
  rewrite H. ring.
Qed.

(** X8.  Over the reals and for any dimensions, the origin is the centre
    of the face of the corners 0 to 3, the centroid of the 8 corners is
    [(0, -h/2, 0)], and the edges from corner 0 to the corners 1, 4 and 3
    span [l] along x, [h] along y and [w] along z. *)
Theorem origin_is_face_centre {N} (dimensions : mat R N 3) (i : fin N) :
  let h := entry dimensions i 0%fin in
  let w := entry dimensions i 1%fin in
  let l := entry dimensions i 2%fin in
  let box := dimensions_to_corners dimensions !!! i in
  let mean4 (k : fin 3) :=
    ((entry box 0%fin k + entry box 1%fin k + entry box 2%fin k + entry box 3%fin k) / 4)%R in
  let mean8 (k : fin 3) :=
    ((entry box 0%fin k + entry box 1%fin k + entry box 2%fin k + entry box 3%fin k
      + entry box 4%fin k + entry box 5%fin k + entry box 6%fin k + entry box 7%fin k) / 8)%R in
  (∀ k, mean4 k = 0%R) ∧
  mean8 0%fin = 0%R ∧ mean8 1%fin = (- h / 2)%R ∧ mean8 2%fin = 0%R ∧
  vsub (box !!! 0%fin) (box !!! 1%fin) = [# l; 0; 0]%R ∧
  vsub (box !!! 0%fin) (box !!! 4%fin) = [# 0; h; 0]%R ∧
  vsub (box !!! 0%fin) (box !!! 3%fin) = [# 0; 0; w]%R.
Proof.
  intros h w l box mean4 mean8. subst box mean4 mean8.
  rewrite dimensions_to_corners_lookup. fold h w l. cbn.
  split_and!; try lra.
  - intros k. inv_fin k; [cbn; lra|]. intros k. inv_fin k; [cbn; lra|]. intros k.
    inv_fin k; [cbn; lra|]. intros k. inv_fin k.
  - apply vec3_ext; lra.
  - apply vec3_ext; lra.
  - apply vec3_ext; lra.
Qed.
End RealGeometry.

Section Robust.
Context {F : Type} `{!Scalar F, !Torch F}.

Hypothesis lt_irrefl : ∀ r : F, f_lt r r = false.
Hypothesis lt_trans : ∀ a b c : F, f_lt a b = true → f_lt b c = true → f_lt a c = true.
Hypothesis lt_below_inf : ∀ a b : F, f_lt a b = true → f_lt_inf b = true → f_lt_inf a = true.

Lemma unbeaten_snoc (syss : list (System F)) (acc : Outcome F) (sys : System F) :
  unbeaten syss acc → unbeaten (syss ++ [sys]) (consider acc sys).
Proof.
  intros [[-> Hall]|(best & Hbest & -> & Hfin & Hmin)]; unfold consider; cbn [improves].
  - destruct (f_lt_inf (residual sys)) eqn:E.
    + right. exists sys. split_and!; [set_solver|done|done|].
      intros sys' [Hin|Hin]%elem_of_app;
        [|apply list_elem_of_singleton in Hin as ->; apply lt_irrefl].
      destruct (f_lt (residual sys') (residual sys)) eqn:E'; [|done].
      rewrite Forall_forall in Hall. rewrite <- (Hall sys' Hin). symmetry.
      by eapply lt_below_inf.
    + left. split; [done|]. apply Forall_app. split; [done|]. by constructor.
  - destruct (f_lt (residual sys) (residual best)) eqn:E.
    + right. exists sys. split_and!; [set_solver|done|by eapply lt_below_inf|].
      intros sys' [Hin|Hin]%elem_of_app;
        [|apply list_elem_of_singleton in Hin as ->; apply lt_irrefl].
      destruct (f_lt (residual sys') (residual sys)) eqn:E'; [|done].
      rewrite <- (Hmin sys' Hin). symmetry. by eapply lt_trans.
    + right. exists best. split_and!; [set_solver|done|done|].
      intros sys' [Hin|Hin]%elem_of_app;
        [by apply Hmin|by apply list_elem_of_singleton in Hin as ->].
Qed.

Lemma unbeaten_foldl (syss : list (System F)) :
  unbeaten syss (foldl consider (None, PyInf, []) syss).
Proof.
  induction syss as [|sys syss IH] using rev_ind.
  - left. split; [done|constructor].
  - rewrite foldl_app. cbn [foldl]. by apply unbeaten_snoc.
Qed.

End Robust.

Section DecayProps.
Context {F : Type} `{!Scalar F}.
Local Open Scope nat_scope.

Lemma lr_decay_fire (m : nat) (ms : list nat) (rate : F) (rates lrs : list F) :
  lr_decay (m - 1) (Build_Decay (m :: ms) (rate :: rates) lrs)
  = if decide (m = 0) then Ok (Build_Decay (m :: ms) (rate :: rates) lrs)
    else Ok (Build_Decay ms rates ((λ lr, f_mul lr rate) <$> lrs)).
Proof.
  unfold lr_decay. cbn [lr_decay_epochs lr_decay_rates group_lrs length lookup list_lookup].
  rewrite bool_decide_eq_true_2 by lia. cbn [andb].
  destruct (decide (m = 0)) as [->|Hm].
  - by rewrite bool_decide_eq_false_2.
  - rewrite bool_decide_eq_true_2 by (f_equal; lia). reflexivity.
Qed.

Lemma lr_decay_skip (epoch : nat) (st : Decay F) :
  head (lr_decay_epochs st) ≠ Some (epoch + 1) → lr_decay epoch st = Ok st.
Proof.
  intros H. unfold lr_decay. destruct st as [[|m ms] rates lrs]; [done|].
  cbn in *. rewrite andb_false_intro2; [done|].
  apply bool_decide_eq_false_2. congruence.
Qed.

Lemma lr_idle (e n : nat) (st : Decay F) :
  (∀ m, head (lr_decay_epochs st) = Some m → m ≤ e ∨ e + n < m) →
  for_each (seq e n) lr_decay st = Ok st.
Proof.
  revert e. induction n as [|n IH]; intros e H; [done|].
  cbn [seq for_each]. rewrite lr_decay_skip.
  - cbn. apply IH. intros m Hm. specialize (H m Hm). lia.
  - intros Hm. specialize (H _ Hm). lia.
Qed.
End DecayProps.


Section DecayRun.
Context {F : Type} `{!Scalar F}.
Local Open Scope nat_scope.

Lemma decayed_fmap (rate : F) (rates lrs : list F) :
  decayed rates <$> ((λ lr, f_mul lr rate) <$> lrs) = decayed (rate :: rates) <$> lrs.
Proof. rewrite <- list_fmap_compose. reflexivity. Qed.

(** The milestones [pre] are met one after the other from epoch [e] on;
    a head of [post] that is not above the last of them, or beyond the last
    epoch, is never met. *)
Lemma lr_run (e n : nat) (pre post : list nat) (rates lrs : list F) :
  increasing_from e pre →
  Forall (λ m, m ≤ e + n) pre →
  (∀ m, head post = Some m → m ≤ default e (last pre) ∨ e + n < m) →
  for_each (seq e n) lr_decay (Build_Decay (pre ++ post) rates lrs)
  = if decide (length pre ≤ length rates)
    then Ok (Build_Decay post (drop (length pre) rates)
               (decayed (take (length pre) rates) <$> lrs))
    else Raise IndexError.
Proof.
  revert e n rates lrs.
  induction pre as [|m pre IH]; intros e n rates lrs Hinc Hle Hpost.
  - rewrite decide_True by (cbn; lia). cbn [app length drop take].
    rewrite lr_idle by exact Hpost.
    f_equal. f_equal. symmetry. apply list_fmap_id.
  - destruct Hinc as [Hem Hinc]. apply Forall_cons in Hle as [Hm Hle].
    replace n with ((m - 1 - e) + (1 + (e + n - m))) by lia.
    rewrite seq_app, for_each_app, lr_idle; cycle 1.
    { intros m' [= <-]. lia. }
    replace (e + (m - 1 - e)) with (m - 1) by lia.
    cbn [mbind exc_bind]. rewrite seq_app, for_each_app.
    cbn [seq for_each app]. destruct rates as [|rate rates].
    + rewrite decide_False by (cbn; lia).
      unfold lr_decay. cbn [lr_decay_epochs lr_decay_rates length lookup list_lookup].
      rewrite bool_decide_eq_true_2 by lia.
      rewrite bool_decide_eq_true_2 by (f_equal; lia). reflexivity.
    + rewrite lr_decay_fire. rewrite decide_False by lia. cbn [mbind exc_bind].
      replace (m - 1 + 1) with m by lia.
      rewrite IH; [| exact Hinc | | ].
      * cbn [length drop take]. destruct (decide (length pre ≤ length rates)).
        -- rewrite decide_True by lia. by rewrite decayed_fmap.
        -- by rewrite decide_False by lia.
      * eapply Forall_impl; [exact Hle|]. cbn. intros; lia.
      * intros m' Hm'. specialize (Hpost m' Hm').
        replace (default e (last (m :: pre))) with (default m (last pre)) in Hpost.
        { lia. }
        rewrite last_cons. by destruct (last pre).
Qed.

(** X9.  When the decay epochs are strictly increasing, lie between 1 and
    [total_epoch], and there are at least as many rates, a run applies one
    decay per epoch listed: the list of epochs ends empty, the unused rates
    remain, and every learning rate is multiplied by the used rates in
    order. *)
Theorem lr_schedule_aligned (total_epoch : nat) (ms : list nat) (rates lrs : list F) :
  increasing_from 0 ms →
  Forall (λ m, m ≤ total_epoch) ms →
  length ms ≤ length rates →
  lr_schedule total_epoch (Build_Decay ms rates lrs)
  = Ok (Build_Decay [] (drop (length ms) rates)
          (decayed (take (length ms) rates) <$> lrs)).
Proof.
  intros Hinc Hle Hlen. unfold lr_schedule.
  rewrite <- (app_nil_r ms) at 1. rewrite lr_run; [|done|done|done].
  by rewrite decide_True.
Qed.

(** X10.  When the decay epochs are strictly increasing, lie between 1
    and [total_epoch], and there are fewer rates than epochs, the run
    raises [IndexError] (a [pop] from the empty list of rates). *)
Theorem lr_schedule_missing_rate (total_epoch : nat) (ms : list nat) (rates lrs : list F) :
  increasing_from 0 ms →
  Forall (λ m, m ≤ total_epoch) ms →
  length rates < length ms →
  lr_schedule total_epoch (Build_Decay ms rates lrs) = Raise IndexError.
Proof.
  intros Hinc Hle Hlen. unfold lr_schedule.
  rewrite <- (app_nil_r ms). rewrite lr_run; [|done|done|done].
  by rewrite decide_False by lia.
Qed.

(** X11.  A decay epoch that is not above the one before it in the list
    (or is 0), or that is beyond [total_epoch], is never applied, and
    neither is any epoch listed after it: the run applies the decays before
    it and leaves it and the rest in the list. *)
Theorem lr_schedule_blocked (total_epoch : nat) (pre : list nat) (m : nat)
    (rest : list nat) (rates lrs : list F) :
  increasing_from 0 pre →
  Forall (λ m, m ≤ total_epoch) pre →
  m ≤ default 0 (last pre) ∨ total_epoch < m →
  length pre ≤ length rates →
  lr_schedule total_epoch (Build_Decay (pre ++ m :: rest) rates lrs)
  = Ok (Build_Decay (m :: rest) (drop (length pre) rates)
          (decayed (take (length pre) rates) <$> lrs)).
Proof.
  intros Hinc Hle Hm Hlen. unfold lr_schedule.
  rewrite lr_run; [|done|done|].
  - by rewrite decide_True.
  - intros m' [= <-]. lia.
Qed.
End DecayRun.

Lemma lr_schedule_aligned_witness :
  lr_schedule 10 (Build_Decay [3; 6] [0.1; 0.5]%R [1; 2]%R)
  = Ok (Build_Decay [] [] [(1 * 0.1 * 0.5)%R; (2 * 0.1 * 0.5)%R]).
Proof.
  refine (lr_schedule_aligned 10 [3; 6] [0.1; 0.5]%R [1; 2]%R _ _ _); cbn.
  - lia.
  - repeat constructor; lia.
  - lia.
Defined.

Lemma lr_schedule_missing_rate_witness :
  lr_schedule 10 (Build_Decay [3; 6] [0.1]%R [1]%R) = Raise IndexError.
Proof.
  refine (lr_schedule_missing_rate 10 [3; 6] [0.1]%R [1]%R _ _ _); cbn.
  - lia.
  - repeat constructor; lia.
  - lia.
Defined.

Lemma lr_schedule_blocked_witness :
  lr_schedule 10 (Build_Decay [6; 3; 8] [0.1; 0.5; 0.5]%R [1]%R)
  = Ok (Build_Decay [3; 8] [0.5; 0.5]%R [(1 * 0.1)%R]).
Proof.
  refine (lr_schedule_blocked 10 [6] 3 [8] [0.1; 0.5; 0.5]%R [1]%R _ _ _ _); cbn.
  - lia.
  - repeat constructor; lia.
  - lia.
  - lia.
Defined.

(** * Exceptions of the library and floating-point residuals *)

Section Raising.
Context {F : Type} `{!Scalar F, !Torch F, !Linalg F}.
Local Open Scope nat_scope.

Lemma solve_system_raising_with_buffers (A : mat F 4 3) (b : vec F 4) (acc : Outcome F) :
  solve_system_raising (with_buffers A b acc)
  = if pinverse_raises A then Raise LinAlgError
    else Ok (with_buffers A b (consider acc (A, b))).
Proof.
  unfold solve_system_raising. rewrite solve_system_with_buffers.
  by destruct acc as [[??]?].
Qed.

Lemma correspondence_loops_raising_2121 (constrains : Constrains F) (cr : Hypothesis_)
    (a a' b c c' d : nat) (ca ca' cb_ cc cc' cd : Constraint F)
    (A0 : mat F 4 3) (b0 : vec F 4) (acc : Outcome F) :
  getitem cr "x1" = Ok [a; a'] → getitem cr "x2" = Ok [b] →
  getitem cr "y1" = Ok [c; c'] → getitem cr "y2" = Ok [d] →
  constraint_of constrains "x1" a = Ok ca →
  constraint_of constrains "x1" a' = Ok ca' →
  constraint_of constrains "x2" b = Ok cb_ →
  constraint_of constrains "y1" c = Ok cc →
  constraint_of constrains "y1" c' = Ok cc' →
  constraint_of constrains "y2" d = Ok cd →
  yields (correspondence_loops_raising constrains cr (with_buffers A0 b0 acc))
    (consider_each acc
       [stack4 ca cb_ cc cd; stack4 ca cb_ cc' cd;
        stack4 ca' cb_ cc cd; stack4 ca' cb_ cc' cd]).
Proof.
  intros Hx1 Hx2 Hy1 Hy2 Ha Ha' Hb Hc Hc' Hd.
  inv_vec A0. inv_vec b0. intros.
  unfold correspondence_loops_raising, stack4. cbn [consider_each fst].
  rewrite Hx1. cbn [mbind exc_bind for_each].
  repeat first
    [ rewrite (load_row_with_buffers _ _ _ _ _ _ _ _ Ha)
    | rewrite (load_row_with_buffers _ _ _ _ _ _ _ _ Ha')
    | rewrite (load_row_with_buffers _ _ _ _ _ _ _ _ Hb)
    | rewrite (load_row_with_buffers _ _ _ _ _ _ _ _ Hc)
    | rewrite (load_row_with_buffers _ _ _ _ _ _ _ _ Hc')
    | rewrite (load_row_with_buffers _ _ _ _ _ _ _ _ Hd)
    | rewrite Hx2 | rewrite Hy1 | rewrite Hy2
    | rewrite solve_system_raising_with_buffers
    | progress cbn [mbind exc_bind for_each vinsert vec_S_inv]
    | match goal with
      | |- context [if pinverse_raises ?A then _ else _] =>
          destruct (pinverse_raises A) eqn:?; [reflexivity|]
      end ].
  eexists _, _. reflexivity.
Qed.

Lemma hypothesis_loops_raising_candidates (K : mat F 3 4) (corners : mat F 8 3)
    (bbox2D : vec F 4) (cr : Hypothesis_) (i1 i1' i2 j1 j1' j2 : fin 8)
    (A0 : mat F 4 3) (b0 : vec F 4) (acc : Outcome F) :
  getitem cr "x1" = Ok [fin_to_nat i1; fin_to_nat i1'] →
  getitem cr "x2" = Ok [fin_to_nat i2] →
  getitem cr "y1" = Ok [fin_to_nat j1; fin_to_nat j1'] →
  getitem cr "y2" = Ok [fin_to_nat j2] →
  4 ≤ i1 → 4 ≤ i1' → 4 ≤ i2 → 4 ≤ j1 → 4 ≤ j1' → j2 < 4 →
  yields (correspondence_loops_raising (expected_constrains K corners bbox2D) cr
            (with_buffers A0 b0 acc))
    (consider_each acc
       (candidate K corners bbox2D <$>
          [(i1, i2, j1, j2); (i1, i2, j1', j2);
           (i1', i2, j1, j2); (i1', i2, j1', j2)])).
Proof.
  intros Hx1 Hx2 Hy1 Hy2 H1 H1' H2 H3 H3' H4.
  destruct (expected_bottom K corners bbox2D i1 H1) as (E1 & _ & _).
  destruct (expected_bottom K corners bbox2D i1' H1') as (E1' & _ & _).
  destruct (expected_bottom K corners bbox2D i2 H2) as (_ & E2 & _).
  destruct (expected_bottom K corners bbox2D j1 H3) as (_ & _ & E3).
  destruct (expected_bottom K corners bbox2D j1' H3') as (_ & _ & E3').
  pose proof (expected_top K corners bbox2D j2 H4) as E4.
  apply (correspondence_loops_raising_2121 _ cr _ _ _ _ _ _ _ _ _ _ _ _ A0 b0 acc
           Hx1 Hx2 Hy1 Hy2 E1 E1' E2 E3 E3' E4).
Qed.

Lemma hypothesis_body_raising_candidates (K : mat F 3 4) (corners : mat F 8 3)
    (bbox2D : vec F 4) (i : nat) (A0 : mat F 4 3) (b0 : vec F 4) (acc : Outcome F) :
  i < 4 →
  yields (hypothesis_body_raising (expected_constrains K corners bbox2D) i
            (with_buffers A0 b0 acc))
    (consider_each acc (candidate K corners bbox2D <$> hypothesis_enumeration !!! i)).
Proof.
  intros Hi. unfold hypothesis_body_raising.
  destruct i as [|[|[|[|i]]]]; [| | | |lia].
  - rewrite (index_lookup crp 0 _ eq_refl). cbn [mbind exc_bind].
    apply (hypothesis_loops_raising_candidates K corners bbox2D _ 6 7 4 5 7 3);
      first [reflexivity | simpl; lia].
  - rewrite (index_lookup crp 1 _ eq_refl). cbn [mbind exc_bind].
    apply (hypothesis_loops_raising_candidates K corners bbox2D _ 5 6 7 4 6 2);
      first [reflexivity | simpl; lia].
  - rewrite (index_lookup crp 2 _ eq_refl). cbn [mbind exc_bind].
    apply (hypothesis_loops_raising_candidates K corners bbox2D _ 4 5 6 7 5 1);
      first [reflexivity | simpl; lia].
  - rewrite (index_lookup crp 3 _ eq_refl). cbn [mbind exc_bind].
    apply (hypothesis_loops_raising_candidates K corners bbox2D _ 7 4 5 6 4 0);
      first [reflexivity | simpl; lia].
Qed.

Lemma consider_each_app (acc : Outcome F) (syss1 syss2 : list (System F)) :
  consider_each acc (syss1 ++ syss2)
  = consider_each acc syss1 ≫= λ acc', consider_each acc' syss2.
Proof.
  revert acc. induction syss1 as [|sys syss1 IH]; intros acc; cbn; [done|].
  destruct (pinverse_raises sys.1); [done|]. apply IH.
Qed.

Lemma search_loop_raising_candidates (K : mat F 3 4) (corners : mat F 8 3)
    (bbox2D : vec F 4) (n : nat) (A0 : mat F 4 3) (b0 : vec F 4) (acc : Outcome F) :
  n ≤ 4 →
  yields (for_each (seq 0 n) (hypothesis_body_raising (expected_constrains K corners bbox2D))
            (with_buffers A0 b0 acc))
    (consider_each acc
       (candidate K corners bbox2D <$> concat (take n hypothesis_enumeration))).
Proof.
  induction n as [|n IH]; intros Hn.
  - exists A0, b0. reflexivity.
  - replace (take (S n) hypothesis_enumeration)
      with (take n hypothesis_enumeration ++ [hypothesis_enumeration !!! n])%list
      by (destruct n as [|[|[|[|n]]]]; try reflexivity; lia).
    rewrite concat_app, fmap_app, consider_each_app, seq_S, for_each_app. cbn [concat].
    rewrite app_nil_r. specialize (IH ltac:(lia)).
    destruct (consider_each acc _) as [acc'|e]; cbn [yields mbind exc_bind] in *.
    + destruct IH as (A1 & b1 & ->). cbn [mbind exc_bind for_each Nat.add].
      pose proof (hypothesis_body_raising_candidates K corners bbox2D n A1 b1 acc'
                    ltac:(lia)) as H.
      destruct (consider_each acc' _) as [acc''|e]; cbn [yields] in *.
      * destruct H as (A2 & b2 & ->). by exists A2, b2.
      * by rewrite H.
    + by rewrite IH.
Qed.

(** The function with a raising [torch.pinverse]: the candidates tried in
    order, then [return trans]. *)
Lemma solve_raising_candidates (bbox2D : vec F 4) (corners : mat F 8 3)
    (theta_l : F) (calib : Calib F) :
  solve_3d_bbox_single_raising bbox2D corners theta_l calib
  = acc ← consider_each (None, PyInf, []) (candidates bbox2D corners theta_l calib);
    match acc.1.1 with
    | Some t => Ok t
    | None => Raise UnboundLocalError
    end.
Proof.
  unfold solve_3d_bbox_single_raising, search_raising, candidates.
  rewrite prepare_constrains_expected. cbn [mbind exc_bind].
  pose proof (search_loop_raising_candidates (projection calib)
                (rotated_corners bbox2D corners theta_l calib) bbox2D 4
                zeros_A zeros_b (None, PyInf, []) ltac:(lia)) as H.
  change (concat (take 4 hypothesis_enumeration)) with enumeration in H.
  change (with_buffers zeros_A zeros_b (None, PyInf, []))
    with ({| buf_A := zeros_A; buf_b := zeros_b; trans := None;
             error := @PyInf F; solved := [] |}) in H.
  destruct (consider_each _ _) as [acc|e]; cbn [yields] in H.
  - destruct H as (A & b & ->). reflexivity.
  - rewrite H. reflexivity.
Qed.

Lemma consider_each_raises (acc : Outcome F) (syss : list (System F)) :
  consider_each acc syss
  = if existsb (λ sys, pinverse_raises sys.1) syss then Raise LinAlgError
    else Ok (foldl consider acc syss).
Proof.
  revert acc. induction syss as [|sys syss IH]; intros acc; cbn; [done|].
  destruct (pinverse_raises sys.1); [done|]. apply IH.
Qed.
End Raising.

Section FloatFacts.
Import PrimFloat FloatOps FloatAxioms SpecFloat.

Lemma nan_mul_l (x : float) : PrimFloat.mul nan x = nan.
Proof. apply Prim2SF_inj. rewrite mul_spec. reflexivity. Qed.

Lemma nan_mul_r (x : float) : PrimFloat.mul x nan = nan.
Proof.
  apply Prim2SF_inj. rewrite mul_spec.
  change (Prim2SF nan) with S754_nan. unfold SF64mul, SFmul. by destruct (Prim2SF x).
Qed.

Lemma nan_add_l (x : float) : PrimFloat.add nan x = nan.
Proof. apply Prim2SF_inj. rewrite add_spec. reflexivity. Qed.

Lemma nan_add_r (x : float) : PrimFloat.add x nan = nan.
Proof.
  apply Prim2SF_inj. rewrite add_spec.
  change (Prim2SF nan) with S754_nan. unfold SF64add, SFadd. by destruct (Prim2SF x).
Qed.

Lemma nan_residual (A : mat float 4 3) (X : mat float 3 4) :
  PrimFloat.sqrt
    (@dot float float_scalar 4
       (@vsub float float_scalar 4
          (@matvec float float_scalar 4 3 A
             (@matvec float float_scalar 3 4 X [# nan; nan; nan; nan]))
          [# nan; nan; nan; nan])
       (@vsub float float_scalar 4
          (@matvec float float_scalar 4 3 A
             (@matvec float float_scalar 3 4 X [# nan; nan; nan; nan]))
          [# nan; nan; nan; nan]))
  = nan.
Proof.
  inv_vec A. intros a0 a1 a2 a3. inv_vec a0. inv_vec a1. inv_vec a2. inv_vec a3. intros.
  inv_vec X. intros r0 r1 r2. inv_vec r0. inv_vec r1. inv_vec r2. intros.
  vm_compute. rewrite !nan_mul_r, !nan_add_l. reflexivity.
Qed.

Section NanRun.
Context (atan2_ : float → float → float) (cos_ sin_ : float → float)
  (pinv : ∀ n m, mat float n m → mat float m n).
#[local] Existing Instance float_scalar.
Let backend : Torch float := float_torch atan2_ cos_ sin_ pinv.
#[local] Existing Instance backend.

Lemma nan_rotated (bbox2D : vec float 4) (theta_l : float) (calib : Calib float) :
  rotated_corners bbox2D (dimensions_to_corners [# [# nan; nan; nan]] !!! 0%fin)
    theta_l calib
  = vreplicate 8 [# nan; nan; nan].
Proof.
  unfold rotated_corners, Ry_T.
  generalize (cos (global_yaw bbox2D theta_l calib)) (sin (global_yaw bbox2D theta_l calib)).
  intros c s. vm_compute. rewrite !nan_mul_l, !nan_add_l. reflexivity.
Qed.

Lemma nan_candidates (theta_l : float) :
  Forall (λ sys : System float, f_lt_inf (residual sys) = false)
    (candidates [# -1; -1; 1; 1]%float
       (dimensions_to_corners [# [# nan; nan; nan]] !!! 0%fin) theta_l
       {| P2 := [# [# 1; 0; 0; 0]; [# 0; 1; 0; 0]; [# 0; 0; 1; 0]]%float;
          R0_rect := [# [# 1; 0; 0]; [# 0; 1; 0]; [# 0; 0; 1]]%float |}).
Proof.
  unfold candidates. rewrite nan_rotated.
  apply Forall_fmap.
  assert (Hq : ∀ q : Correspondence,
    (candidate
       (projection {| P2 := [# [# 1; 0; 0; 0]; [# 0; 1; 0; 0]; [# 0; 0; 1; 0]]%float;
                      R0_rect := [# [# 1; 0; 0]; [# 0; 1; 0]; [# 0; 0; 1]]%float |})
       (vreplicate 8 [# nan; nan; nan]) [# -1; -1; 1; 1]%float q).2
    = [# nan; nan; nan; nan] →
    (f_lt_inf ∘ residual)
      (candidate
         (projection {| P2 := [# [# 1; 0; 0; 0]; [# 0; 1; 0; 0]; [# 0; 0; 1; 0]]%float;
                        R0_rect := [# [# 1; 0; 0]; [# 0; 1; 0]; [# 0; 0; 1]]%float |})
         (vreplicate 8 [# nan; nan; nan]) [# -1; -1; 1; 1]%float q) = false).
  { intros q Hb. cbn [compose]. destruct (candidate _ _ _ q) as [A b].
    cbn [snd] in Hb. subst b. unfold residual, solution.
    cbn [fst snd norm backend float_torch pinverse f_lt_inf].
    rewrite nan_residual. reflexivity. }
  unfold enumeration, hypothesis_enumeration. cbn [concat app].
  repeat (apply Forall_cons; split; [apply Hq; vm_compute; reflexivity|]).
  constructor.
Qed.
End NanRun.
End FloatFacts.

Section Outcomes.
Context {F : Type} `{!Scalar F, !Torch F, !Linalg F}.

Lemma solve_unbound (bbox2D : vec F 4) (corners : mat F 8 3) (theta_l : F) (calib : Calib F) :
  Forall (λ sys, f_lt_inf (residual sys) = false) (candidates bbox2D corners theta_l calib) →
  solve_3d_bbox_single bbox2D corners theta_l calib = Raise UnboundLocalError.
Proof.
  intros Hall.
  destruct (run_search_from_outcome zeros_A zeros_b bbox2D corners theta_l calib)
    as (s & E & Ho).
  unfold solve_3d_bbox_single, solve_from. rewrite E. cbn [mbind exc_bind].
  unfold return_trans.
  apply (consider_unbound []) in Hall. rewrite <- Ho in Hall. cbn in Hall.
  by rewrite Hall.
Qed.

Lemma existsb_Exists_true {A} (f : A → bool) (l : list A) :
  existsb f l = true ↔ Exists (λ x, f x = true) l.
Proof.
  induction l as [|x l IH]; cbn.
  - split; [done|]. by intros ?%Exists_nil.
  - rewrite orb_true_iff, Exists_cons, IH. done.
Qed.

Lemma existsb_Forall_false {A} (f : A → bool) (l : list A) :
  existsb f l = false ↔ Forall (λ x, f x = false) l.
Proof.
  induction l as [|x l IH]; cbn.
  - split; [constructor|done].
  - rewrite orb_false_iff, Forall_cons, IH. done.
Qed.

(** X1.  On tensors of the documented shapes and a calibration holding
    both matrices, the function with a raising [torch.pinverse] raises
    [_LinAlgError] exactly when [torch.pinverse] raises on the matrix of
    one of the 16 candidate systems, and the unbound local at
    [return trans] exactly when it raises on none and the residual of no
    candidate compares below [float('inf')]; it raises nothing else, in
    particular no [KeyError] and no [IndexError]. *)
Theorem solve_raising_outcomes (bbox2D : vec F 4) (corners : mat F 8 3)
    (theta_l : F) (calib : Calib F) :
  let syss := candidates bbox2D corners theta_l calib in
  (solve_3d_bbox_single_raising bbox2D corners theta_l calib = Raise LinAlgError
   ↔ Exists (λ sys, pinverse_raises sys.1 = true) syss) ∧
  (solve_3d_bbox_single_raising bbox2D corners theta_l calib = Raise UnboundLocalError
   ↔ Forall (λ sys, pinverse_raises sys.1 = false) syss ∧
     Forall (λ sys, f_lt_inf (residual sys) = false) syss) ∧
  (∀ e, solve_3d_bbox_single_raising bbox2D corners theta_l calib = Raise e →
        e = LinAlgError ∨ e = UnboundLocalError).
Proof.
  intros syss. rewrite solve_raising_candidates, consider_each_raises. fold syss.
  rewrite <- existsb_Exists_true, <- existsb_Forall_false.
  rewrite <- (consider_unbound [] syss).
  destruct (existsb _ syss); cbn [mbind exc_bind].
  - split; [done|]. split; [|intros e [= <-]; by left].
    split; [done|]. intros [? _]. done.
  - destruct (foldl consider _ syss).1.1.
    + split; [done|]. split; [|done]. split; [done|]. intros [_ ?]. done.
    + split; [done|]. split; [done|]. intros e [= <-]. by right.
Qed.
End Outcomes.

Section Lowest.
Context {F : Type} `{!Scalar F, !Torch F, !Linalg F}.

Hypothesis lt_irrefl : ∀ r : F, f_lt r r = false.
Hypothesis lt_trans : ∀ a b c : F, f_lt a b = true → f_lt b c = true → f_lt a c = true.
Hypothesis lt_below_inf : ∀ a b : F, f_lt a b = true → f_lt_inf b = true → f_lt_inf a = true.

End Lowest.


Section FloatRun.
Import PrimFloat.

End FloatRun.
